(** * Candidate roster admin view: upload and duplicate resolution

    Shallow embedding of [src/frontend/app/routes/admin.candidates.jsx]
    (the [CandidatesAdmin] React component).  The component's hooks state
    is a record, its asynchronous handlers are programs in a small
    command/await monad ([Async]) with JavaScript's try/catch/finally, and
    the JSX it returns is a first-order description of the rendered
    screen. *)

From Stdlib Require Import String Ascii DecimalString.
From stdpp Require Import base option list gmap strings.

Local Open Scope string_scope.

(** ** JavaScript values used by the component *)

(** A thrown [Error]: only its [message] is ever read. *)
Record JsError := { message : string }.

(** Truthiness of a string: only the empty string is falsy. *)
Definition truthy (s : string) : bool :=
  match s with EmptyString => false | String _ _ => true end.

(** [x || fallback] where [x] is a string or [undefined]. *)
Definition js_or (x : option string) (fallback : string) : string :=
  match x with
  | Some s => if truthy s then s else fallback
  | None => fallback
  end.

(** [String.prototype.includes]. *)
Fixpoint includes (hay needle : string) : bool :=
  String.prefix needle hay ||
  match hay with
  | EmptyString => false
  | String _ rest => includes rest needle
  end.

(** Number to string conversion inside a template literal. *)
Definition show_nat (n : nat) : string := NilZero.string_of_uint (Nat.to_uint n).

(** ** A small regular-expression matcher

    Enough of the JavaScript regex language for the file-name check
    [/\.(csv|xlsx|xls)$/]: literal characters, sequence, ordered
    alternation and the end-of-input anchor; matching is case sensitive
    (no [i] flag) and [$] only matches at the very end (no [m] flag). *)
Inductive Regex :=
| RChar (c : ascii)
| RSeq (r1 r2 : Regex)
| RAlt (r1 r2 : Regex)
| REps
| REnd.

(** All the remainders left after matching [r] at the start of [s], in
    backtracking order. *)
Fixpoint match_at (r : Regex) (s : string) : list string :=
  match r with
  | RChar c =>
      match s with
      | String c' rest => if Ascii.eqb c c' then [rest] else []
      | EmptyString => []
      end
  | RSeq r1 r2 => concat (map (match_at r2) (match_at r1 s))
  | RAlt r1 r2 => match_at r1 s ++ match_at r2 s
  | REps => [s]
  | REnd => match s with EmptyString => [EmptyString] | _ => [] end
  end.

(** The regex matches at the start of [s]. *)
Definition anchored (r : Regex) (s : string) : bool :=
  match match_at r s with [] => false | _ :: _ => true end.

(** [s.match(r)] is non-null: the (unanchored) regex matches at some
    position of [s]. *)
Fixpoint regex_test (r : Regex) (s : string) : bool :=
  anchored r s ||
  match s with
  | EmptyString => false
  | String _ rest => regex_test r rest
  end.

(** A run of literal characters. *)
Fixpoint RLit (s : string) : Regex :=
  match s with
  | EmptyString => REps
  | String c rest => RSeq (RChar c) (RLit rest)
  end.

(** [/\.(csv|xlsx|xls)$/] *)
Definition upload_name_regex : Regex :=
  RSeq (RChar ".") (RSeq (RAlt (RLit "csv") (RAlt (RLit "xlsx") (RLit "xls"))) REnd).

(** ** Data received from and sent to the API *)

Record Candidate := {
  id : Z;
  name : string;
  email : string;
  tags : option string;
  testsAssigned : list (Z * string);
  completed : bool
}.

(** The [new] payload of a duplicate row. *)
Record NewRow := {
  new_name : string;
  new_email : string;
  new_tags : option string
}.

Record DuplicateCandidate := {
  new : NewRow;
  existing : list Candidate
}.

Inductive Action := update | skip.

(** An entry of [duplicateDecisions]; [existing_id = None] is a missing
    (or [undefined]) property. *)
Record Decision := {
  action : Action;
  existing_id : option Z
}.

(** An element of the array posted to [/candidates/resolve-duplicates]. *)
Record Resolution := {
  res_new : NewRow;
  res_action : Action;
  res_existing_id : option Z
}.

(** The JSON body of the upload and resolve endpoints.  Every property
    may be missing: [{ success, errors, duplicates? }] on success and
    [{ error }] on failure. *)
Record Result := {
  r_error : option string;
  r_success : option (list Candidate);
  r_errors : option (list string);
  r_duplicates : option (list DuplicateCandidate)
}.

Record File := { file_name : string }.

(** [FormData]: the appended (field, file) pairs. *)
Definition FormData := list (string * File).

(** The change event of the file input: [event.target.files]. *)
Record ChangeEvent := { files : list File }.

(** A promise that has settled. *)
Inductive Settled (A : Type) :=
| Resolved (a : A)
| Rejected (e : JsError).
Arguments Resolved {A} a.
Arguments Rejected {A} e.

(** What the handlers read of a fetch [Response]: [ok],
    [headers.get('content-type')] and the outcome of [json()]. *)
Record Response (B : Type) := {
  ok : bool;
  content_type : option string;
  json : Settled B
}.
Arguments ok {B} _.
Arguments content_type {B} _.
Arguments json {B} _.

(** ** Component state (the [useState] cells) *)

Inductive StatusType := success | error_status.

Record UploadStatus := {
  type : StatusType;
  status_message : string
}.

Record State := {
  candidates : list Candidate;
  loading : bool;
  error : option string;
  uploadStatus : option UploadStatus;
  isUploading : bool;
  showDuplicateModal : bool;
  duplicateData : option (list DuplicateCandidate);
  duplicateDecisions : gmap nat Decision
}.

(** The state of a freshly mounted component. *)
Definition initial_state : State := {|
  candidates := [];
  loading := true;
  error := None;
  uploadStatus := None;
  isUploading := false;
  showDuplicateModal := false;
  duplicateData := None;
  duplicateDecisions := ∅
|}.

(** ** Effects *)

(** Synchronous effects: the state setters, [console.error] and the
    write [event.target.value = '']. *)
Inductive Cmd :=
| setCandidates (l : list Candidate)
| setLoading (b : bool)
| setError (e : option string)
| setUploadStatus (s : option UploadStatus)
| setIsUploading (b : bool)
| setShowDuplicateModal (b : bool)
| setDuplicateData (d : option (list DuplicateCandidate))
| setDuplicateDecisions (m : gmap nat Decision)
| console_error (label : string) (e : JsError)
| reset_file_input.

Definition apply_cmd (c : Cmd) (st : State) : State :=
  match c with
  | setCandidates l =>
      {| candidates := l; loading := loading st; error := error st;
         uploadStatus := uploadStatus st; isUploading := isUploading st;
         showDuplicateModal := showDuplicateModal st;
         duplicateData := duplicateData st;
         duplicateDecisions := duplicateDecisions st |}
  | setLoading b =>
      {| candidates := candidates st; loading := b; error := error st;
         uploadStatus := uploadStatus st; isUploading := isUploading st;
         showDuplicateModal := showDuplicateModal st;
         duplicateData := duplicateData st;
         duplicateDecisions := duplicateDecisions st |}
  | setError e =>
      {| candidates := candidates st; loading := loading st; error := e;
         uploadStatus := uploadStatus st; isUploading := isUploading st;
         showDuplicateModal := showDuplicateModal st;
         duplicateData := duplicateData st;
         duplicateDecisions := duplicateDecisions st |}
  | setUploadStatus s =>
      {| candidates := candidates st; loading := loading st; error := error st;
         uploadStatus := s; isUploading := isUploading st;
         showDuplicateModal := showDuplicateModal st;
         duplicateData := duplicateData st;
         duplicateDecisions := duplicateDecisions st |}
  | setIsUploading b =>
      {| candidates := candidates st; loading := loading st; error := error st;
         uploadStatus := uploadStatus st; isUploading := b;
         showDuplicateModal := showDuplicateModal st;
         duplicateData := duplicateData st;
         duplicateDecisions := duplicateDecisions st |}
  | setShowDuplicateModal b =>
      {| candidates := candidates st; loading := loading st; error := error st;
         uploadStatus := uploadStatus st; isUploading := isUploading st;
         showDuplicateModal := b;
         duplicateData := duplicateData st;
         duplicateDecisions := duplicateDecisions st |}
  | setDuplicateData d =>
      {| candidates := candidates st; loading := loading st; error := error st;
         uploadStatus := uploadStatus st; isUploading := isUploading st;
         showDuplicateModal := showDuplicateModal st;
         duplicateData := d;
         duplicateDecisions := duplicateDecisions st |}
  | setDuplicateDecisions m =>
      {| candidates := candidates st; loading := loading st; error := error st;
         uploadStatus := uploadStatus st; isUploading := isUploading st;
         showDuplicateModal := showDuplicateModal st;
         duplicateData := duplicateData st;
         duplicateDecisions := m |}
  | console_error _ _ => st
  | reset_file_input => st
  end.

(** The requests the component can issue through [useAuthenticatedApi]. *)
Inductive Request :=
| GET (path : string)
| UPLOAD (path : string) (form : FormData)
| POST (path : string) (body : list Resolution).

(** An asynchronous function body: it returns, throws, performs a
    synchronous effect, or awaits one of the three API calls and resumes
    with the settled promise. *)
Inductive Async (A : Type) : Type :=
| Ret (a : A)
| Throw (e : JsError)
| Act (c : Cmd) (k : Async A)
| AwaitGet (path : string) (k : Settled (Response (list Candidate)) -> Async A)
| AwaitUpload (path : string) (form : FormData)
    (k : Settled (Response Result) -> Async A)
| AwaitPost (path : string) (body : list Resolution)
    (k : Settled (Response Result) -> Async A).
Arguments Ret {A} a.
Arguments Throw {A} e.
Arguments Act {A} c k.
Arguments AwaitGet {A} path k.
Arguments AwaitUpload {A} path form k.
Arguments AwaitPost {A} path body k.

Fixpoint bind {A B} (p : Async A) (f : A -> Async B) : Async B :=
  match p with
  | Ret a => f a
  | Throw e => Throw e
  | Act c k => Act c (bind k f)
  | AwaitGet path k => AwaitGet path (fun o => bind (k o) f)
  | AwaitUpload path form k => AwaitUpload path form (fun o => bind (k o) f)
  | AwaitPost path body k => AwaitPost path body (fun o => bind (k o) f)
  end.

(** [try { p } catch (err) { h err }] *)
Fixpoint try_catch {A} (p : Async A) (h : JsError -> Async A) : Async A :=
  match p with
  | Ret a => Ret a
  | Throw e => h e
  | Act c k => Act c (try_catch k h)
  | AwaitGet path k => AwaitGet path (fun o => try_catch (k o) h)
  | AwaitUpload path form k => AwaitUpload path form (fun o => try_catch (k o) h)
  | AwaitPost path body k => AwaitPost path body (fun o => try_catch (k o) h)
  end.

(** [try { p } finally { f }], for a [finally] block that completes
    normally. *)
Fixpoint try_finally {A} (p : Async A) (f : Async unit) : Async A :=
  match p with
  | Ret a => bind f (fun _ => Ret a)
  | Throw e => bind f (fun _ => Throw e)
  | Act c k => Act c (try_finally k f)
  | AwaitGet path k => AwaitGet path (fun o => try_finally (k o) f)
  | AwaitUpload path form k => AwaitUpload path form (fun o => try_finally (k o) f)
  | AwaitPost path body k => AwaitPost path body (fun o => try_finally (k o) f)
  end.

Declare Scope async_scope.
Delimit Scope async_scope with async.
Notation "x <- p ;; q" := (bind p (fun x => q))
  (at level 100, p at next level, right associativity) : async_scope.
Notation "p ;; q" := (bind p (fun _ => q))
  (at level 100, right associativity) : async_scope.
Notation "'try' p 'catch' x => h" := (try_catch p (fun x => h))
  (at level 100, p at level 200, x name, h at level 200) : async_scope.

Definition perform (c : Cmd) : Async unit := Act c (Ret tt).
Coercion perform : Cmd >-> Async.

(** [await promise]: a rejection is re-thrown at the await. *)
Definition await {A} (s : Settled A) : Async A :=
  match s with
  | Resolved a => Ret a
  | Rejected e => Throw e
  end.

Definition api_get (path : string) : Async (Response (list Candidate)) :=
  AwaitGet path await.
Definition api_uploadFile (path : string) (form : FormData) : Async (Response Result) :=
  AwaitUpload path form await.
Definition api_post (path : string) (body : list Resolution) : Async (Response Result) :=
  AwaitPost path body await.

(** [await response.json()] *)
Definition response_json {B} (r : Response B) : Async B := await (json r).

(** ** The component's functions *)

Local Open Scope async_scope.

(** [throw new Error(msg)] when [cond] holds. *)
Definition throw_if (cond : bool) (msg : string) : Async unit :=
  if cond then Throw {| message := msg |} else Ret tt.

(** The [TypeError] raised by reading [.length] (or an index) of
    [undefined]. *)
Definition type_error_undefined (prop : string) : JsError :=
  {| message := "Cannot read properties of undefined (reading '" ++ prop ++ "')" |}.

(** [xs.length] where the property holding [xs] may be missing. *)
Definition length_of {X} (xs : option (list X)) : Async nat :=
  match xs with
  | Some l => Ret (length l)
  | None => Throw (type_error_undefined "length")
  end.

(** Lines 19-33: the fetch run once on mount. *)
Definition fetchCandidates : Async unit :=
  try_finally
    (try (setLoading true;;
          response <- api_get "/candidates/";;
          data <- response_json response;;
          setCandidates data;;
          setError None)
     catch err =>
       (console_error "Error loading candidates:" err;;
        setError (Some (message err));;
        setCandidates []))
    (setLoading false).

(** Lines 38-46. *)
Definition refreshCandidates : Async unit :=
  try (response <- api_get "/candidates/";;
       data <- response_json response;;
       setCandidates data)
  catch err => console_error "Error refreshing candidates:" err.

(** [!contentType || !contentType.includes('application/json')] *)
Definition not_json (contentType : option string) : bool :=
  match contentType with
  | None => true
  | Some ct => negb (truthy ct) || negb (includes ct "application/json")
  end.

(** [result.duplicates && result.duplicates.length > 0] *)
Definition has_duplicates (result : Result) : option (list DuplicateCandidate) :=
  match r_duplicates result with
  | Some (d :: ds) => Some (d :: ds)
  | _ => None
  end.

(** Lines 48-107. *)
Definition handleFileUpload (event : ChangeEvent) : Async unit :=
  match head (files event) with
  | None => Ret tt
  | Some file =>
      setUploadStatus None;;
      setIsUploading true;;
      setDuplicateData None;;
      setDuplicateDecisions ∅;;
      if negb (regex_test upload_name_regex (file_name file)) then
        setUploadStatus
          (Some {| type := error_status;
                   status_message := "Please upload a CSV or Excel file" |});;
        setIsUploading false
      else
        let formData : FormData := [("file", file)] in
        try_finally
          (try (response <- api_uploadFile "/candidates/upload" formData;;
                throw_if (not_json (content_type response))
                         "Server returned non-JSON response";;
                result <- response_json response;;
                throw_if (negb (ok response))
                         (js_or (r_error result) "Upload failed");;
                match has_duplicates result with
                | Some duplicates =>
                    setDuplicateData (Some duplicates);;
                    setShowDuplicateModal true
                | None =>
                    added <- length_of (r_success result);;
                    failed <- length_of (r_errors result);;
                    setUploadStatus
                      (Some {| type := success;
                               status_message :=
                                 "Successfully added " ++ show_nat added ++
                                 " candidates. " ++ show_nat failed ++ " errors." |});;
                    refreshCandidates
                end)
           catch error =>
             setUploadStatus
               (Some {| type := error_status;
                        status_message :=
                          js_or (Some (message error))
                                "Failed to upload file. Please try again." |}))
          (setIsUploading false;; reset_file_input)
  end.

(** Lines 114-121: the decisions object turned into the array the API
    expects. *)
Definition decisions_array (duplicateData : list DuplicateCandidate)
    (duplicateDecisions : gmap nat Decision) : list Resolution :=
  imap (fun index item =>
          let decision :=
            default {| action := skip; existing_id := None |}
                    (duplicateDecisions !! index) in
          {| res_new := new item;
             res_action := action decision;
             res_existing_id := existing_id decision |})
       duplicateData.

(** Lines 109-146; [st] is the state the handler closed over. *)
Definition handleDuplicateResolution (st : State) : Async unit :=
  match duplicateData st with
  | None => Ret tt
  | Some data =>
      try (let decisions := decisions_array data (duplicateDecisions st) in
           response <- api_post "/candidates/resolve-duplicates" decisions;;
           result <- response_json response;;
           throw_if (negb (ok response))
                    (js_or (r_error result) "Failed to resolve duplicates");;
           processed <- length_of (r_success result);;
           failed <- length_of (r_errors result);;
           setUploadStatus
             (Some {| type := success;
                      status_message :=
                        "Successfully processed " ++ show_nat processed ++
                        " candidates. " ++ show_nat failed ++ " errors." |});;
           setShowDuplicateModal false;;
           setDuplicateData None;;
           setDuplicateDecisions ∅;;
           refreshCandidates)
      catch error =>
        setUploadStatus
          (Some {| type := error_status;
                   status_message :=
                     js_or (Some (message error))
                           "Failed to resolve duplicates. Please try again." |})
  end.

(** Lines 222-226 and 342-346: the close and Cancel buttons of the
    dialog. *)
Definition closeDuplicateModal : Async unit :=
  setShowDuplicateModal false;;
  setDuplicateData None;;
  setDuplicateDecisions ∅.

(** Lines 285-291: the "update" radio of row [index]. *)
Definition chooseUpdate (st : State) (index : nat) (item : DuplicateCandidate) : Async unit :=
  match existing item with
  | first :: _ =>
      setDuplicateDecisions
        (<[index := {| action := update; existing_id := Some (id first) |}]>
           (duplicateDecisions st))
  | [] => Throw (type_error_undefined "id")
  end.

(** Lines 302-305: the "skip" radio of row [index]. *)
Definition chooseSkip (st : State) (index : nat) : Async unit :=
  setDuplicateDecisions
    (<[index := {| action := skip; existing_id := None |}]> (duplicateDecisions st)).

(** Lines 319-325: the match selector of row [index]; [chosen] is the
    number parsed from the selected option's value. *)
Definition selectExisting (st : State) (index : nat) (chosen : Z) : Async unit :=
  setDuplicateDecisions
    (<[index := {| action := update; existing_id := Some chosen |}]>
       (duplicateDecisions st)).

(** ** Running a handler against the API

    [useAuthenticatedApi] lives outside this file; an [Api] gives, for
    each of its three methods, the promise the call settles to. *)
Record Api := {
  get : string -> Settled (Response (list Candidate));
  uploadFile : string -> FormData -> Settled (Response Result);
  post : string -> list Resolution -> Settled (Response Result)
}.

(** What an execution leaves behind, in order: the synchronous effects
    and the requests sent. *)
Inductive Event :=
| Did (c : Cmd)
| Sent (r : Request).

Inductive Completion (A : Type) :=
| Normal (a : A)
| Uncaught (e : JsError).
Arguments Normal {A} a.
Arguments Uncaught {A} e.

Record Run (A : Type) := {
  final : State;
  trace : list Event;
  completion : Completion A
}.
Arguments final {A} _.
Arguments trace {A} _.
Arguments completion {A} _.

Definition logged {A} (e : Event) (r : Run A) : Run A :=
  {| final := final r; trace := e :: trace r; completion := completion r |}.

Fixpoint run {A} (api : Api) (p : Async A) (st : State) : Run A :=
  match p with
  | Ret a => {| final := st; trace := []; completion := Normal a |}
  | Throw e => {| final := st; trace := []; completion := Uncaught e |}
  | Act c k => logged (Did c) (run api k (apply_cmd c st))
  | AwaitGet path k => logged (Sent (GET path)) (run api (k (get api path)) st)
  | AwaitUpload path form k =>
      logged (Sent (UPLOAD path form)) (run api (k (uploadFile api path form)) st)
  | AwaitPost path body k =>
      logged (Sent (POST path body)) (run api (k (post api path body)) st)
  end.

(** The states in which the handler is suspended on a request, paired
    with that request, in order.  These are the states rendered while the
    request is outstanding. *)
Fixpoint suspensions {A} (api : Api) (p : Async A) (st : State) : list (State * Request) :=
  match p with
  | Ret _ | Throw _ => []
  | Act c k => suspensions api k (apply_cmd c st)
  | AwaitGet path k => (st, GET path) :: suspensions api (k (get api path)) st
  | AwaitUpload path form k =>
      (st, UPLOAD path form) :: suspensions api (k (uploadFile api path form)) st
  | AwaitPost path body k =>
      (st, POST path body) :: suspensions api (k (post api path body)) st
  end.

(** The requests of a trace. *)
Definition requests (t : list Event) : list Request :=
  omap (fun e => match e with Sent r => Some r | Did _ => None end) t.

(** The synchronous effects of a trace. *)
Definition effects (t : list Event) : list Cmd :=
  omap (fun e => match e with Did c => Some c | Sent _ => None end) t.

Definition is_refresh (r : Request) : bool :=
  match r with
  | GET path => String.eqb path "/candidates/"
  | _ => false
  end.

(** How many times the candidate list was fetched. *)
Definition refresh_count (t : list Event) : nat :=
  length (filter (fun r => is_refresh r = true) (requests t)).

(** Whether a request went over the network at all. *)
Definition network_call (t : list Event) : bool :=
  match requests t with [] => false | _ :: _ => true end.

(** ** The rendered screen (lines 148-432) *)

Inductive Handler :=
| reloadPage
| onFileChange
| onCloseModal
| onProcess
| onChooseUpdate (index : nat)
| onChooseSkip (index : nat)
| onSelectExisting (index : nat).

(** A [<button>]; [btn_disabled] is [false] when the element carries no
    [disabled] attribute. *)
Record Button := {
  btn_label : string;
  btn_disabled : bool;
  btn_onClick : Handler
}.

Record FileInput := {
  accept : string;
  input_disabled : bool;
  input_onChange : Handler
}.

Record RowView := {
  row_item : DuplicateCandidate;
  update_checked : bool;
  skip_checked : bool;
  selector : option (option Z * list Candidate)
}.

Record Modal := {
  close_button : Button;
  rows : list RowView;
  cancel_button : Button;
  process_button : Button
}.

Record Page := {
  file_input : FileInput;
  upload_label : string;
  banner : option UploadStatus;
  modal : option Modal;
  table : list Candidate
}.

Inductive Screen :=
| LoadingScreen
| ErrorScreen (msg : string) (retry : Button)
| MainScreen (p : Page).

Definition is_action (a : Action) (d : option Decision) : bool :=
  match d, a with
  | Some {| action := update |}, update => true
  | Some {| action := skip |}, skip => true
  | _, _ => false
  end.

(** Lines 234-337: one row of the dialog. *)
Definition render_row (decisions : gmap nat Decision) (index : nat)
    (item : DuplicateCandidate) : RowView :=
  let decision := decisions !! index in
  {| row_item := item;
     update_checked :=
       is_action update decision ||
       match decision with None => true | Some _ => false end;
     skip_checked := is_action skip decision;
     selector :=
       if is_action update decision && (1 <? length (existing item))%nat
       then Some (match decision ≫= existing_id with
                  | Some z => if (z =? 0)%Z then None else Some z
                  | None => None
                  end, existing item)
       else None |}.

(** Lines 216-360: the dialog is rendered when
    [showDuplicateModal && duplicateData]. *)
Definition render_modal (st : State) : option Modal :=
  if showDuplicateModal st then
    match duplicateData st with
    | Some data =>
        Some {| close_button :=
                  {| btn_label := "&times;"; btn_disabled := false;
                     btn_onClick := onCloseModal |};
                rows := imap (render_row (duplicateDecisions st)) data;
                cancel_button :=
                  {| btn_label := "Cancel"; btn_disabled := false;
                     btn_onClick := onCloseModal |};
                process_button :=
                  {| btn_label := "Process Selected Actions";
                     btn_disabled := false;
                     btn_onClick := onProcess |} |}
    | None => None
    end
  else None.

(** Lines 178-432: the main page. *)
Definition render_page (st : State) : Page :=
  {| file_input := {| accept := ".csv,.xlsx,.xls";
                      input_disabled := isUploading st;
                      input_onChange := onFileChange |};
     upload_label :=
       if isUploading st then "Uploading..." else "Upload Candidates";
     banner := uploadStatus st;
     modal := render_modal st;
     table := candidates st |}.

(** [if (loading) ... if (error) ... return ...]; an empty message is
    falsy, so it does not select the error screen. *)
Definition render (st : State) : Screen :=
  if loading st then LoadingScreen
  else
    match error st with
    | Some msg =>
        if truthy msg then
          ErrorScreen msg {| btn_label := "Retry"; btn_disabled := false;
                             btn_onClick := reloadPage |}
        else MainScreen (render_page st)
    | None => MainScreen (render_page st)
    end.

(** Clicking "Process Selected Actions" on the screen rendered from
    [st]: the handler closed over [st] runs from [st]. *)
Definition click_process (api : Api) (st : State) : Run unit :=
  run api (handleDuplicateResolution st) st.

(** The arrays posted to the resolution endpoint. *)
Definition posted_decisions (t : list Event) : list (list Resolution) :=
  omap (fun r => match r with
                 | POST path body =>
                     if String.eqb path "/candidates/resolve-duplicates"
                     then Some body else None
                 | _ => None
                 end) (requests t).

(** Whether the dialog is on screen. *)
Definition dialog_open (st : State) : bool :=
  match render_modal st with Some _ => true | None => false end.

(** ** File-name extensions *)

(** [String.prototype.endsWith]. *)
Fixpoint ends_with (s suffix : string) : bool :=
  String.eqb s suffix ||
  match s with
  | EmptyString => false
  | String _ rest => ends_with rest suffix
  end.

(** The name ends in [.csv], [.xlsx] or [.xls], written exactly so. *)
Definition accepted_extension (name : string) : bool :=
  ends_with name ".csv" || ends_with name ".xlsx" || ends_with name ".xls".

(** ASCII lower-casing. *)
Definition lower_ascii (c : ascii) : ascii :=
  let n := nat_of_ascii c in
  if (65 <=? n)%nat && (n <=? 90)%nat then ascii_of_nat (n + 32) else c.

Fixpoint lower (s : string) : string :=
  match s with
  | EmptyString => EmptyString
  | String c rest => String (lower_ascii c) (lower rest)
  end.

(** The reading of the specification: the name ends in [.csv], [.xlsx]
    or [.xls] "in any letter case". *)
Definition accepted_extension_any_case (name : string) : bool :=
  accepted_extension (lower name).

(** The change event for a single selected file. *)
Definition select_file (name : string) : ChangeEvent :=
  {| files := [ {| file_name := name |} ] |}.

(** ** Sample data *)

Definition ada : Candidate :=
  {| id := 7; name := "Ada"; email := "ada@example.org"; tags := Some "math";
     testsAssigned := []; completed := false |}.

Definition ada_other : Candidate :=
  {| id := 9; name := "Ada L."; email := "ada@example.org"; tags := None;
     testsAssigned := []; completed := true |}.

Definition ada_row : DuplicateCandidate :=
  {| new := {| new_name := "Ada"; new_email := "ada@example.org";
               new_tags := Some "math; logic" |};
     existing := [ada; ada_other] |}.

Definition bob_row : DuplicateCandidate :=
  {| new := {| new_name := "Bob"; new_email := "bob@example.org";
               new_tags := None |};
     existing := [ada_other] |}.

(** A loaded, idle view. *)
Definition idle_state : State :=
  {| candidates := [ada]; loading := false; error := None;
     uploadStatus := None; isUploading := false;
     showDuplicateModal := false; duplicateData := None;
     duplicateDecisions := ∅ |}.

(** The dialog open on two duplicate rows, the user having decided only
    the second. *)
Definition resolving_state : State :=
  {| candidates := [ada]; loading := false; error := None;
     uploadStatus := None; isUploading := false;
     showDuplicateModal := true; duplicateData := Some [ada_row; bob_row];
     duplicateDecisions :=
       {[ 1%nat := {| action := update; existing_id := Some 9%Z |} ]} |}.

Definition json_response {B} (status_ok : bool) (body : B) : Response B :=
  {| ok := status_ok; content_type := Some "application/json; charset=utf-8";
     json := Resolved body |}.

(** An API whose every call succeeds: the upload reports one created
    candidate and no duplicates. *)
Definition api_up : Api :=
  {| get := fun _ => Resolved (json_response true [ada; ada_other]);
     uploadFile := fun _ _ =>
       Resolved (json_response true
         {| r_error := None; r_success := Some [ada_other];
            r_errors := Some []; r_duplicates := None |});
     post := fun _ _ =>
       Resolved (json_response true
         {| r_error := None; r_success := Some [ada];
            r_errors := Some ["row 2"]; r_duplicates := None |}) |}.

(** An API that cannot be reached. *)
Definition api_down : Api :=
  {| get := fun _ => Rejected {| message := "Failed to fetch" |};
     uploadFile := fun _ _ => Rejected {| message := "Failed to fetch" |};
     post := fun _ _ => Rejected {| message := "Failed to fetch" |} |}.

(** ** Banners and states named in the statements *)

(** The state in which every request of an upload is made: the status
    cleared, the busy flag raised, the duplicate state reset. *)
Definition uploading (st : State) : State :=
  apply_cmd (setDuplicateDecisions ∅)
    (apply_cmd (setDuplicateData None)
       (apply_cmd (setIsUploading true)
          (apply_cmd (setUploadStatus None) st))).

(** The banner of lines 60-63. *)
Definition validation_error : UploadStatus :=
  {| type := error_status; status_message := "Please upload a CSV or Excel file" |}.

(** A red banner. *)
Definition error_banner (msg : string) : UploadStatus :=
  {| type := error_status; status_message := msg |}.

(** A green banner. *)
Definition success_banner (msg : string) : UploadStatus :=
  {| type := success; status_message := msg |}.

(** A response the upload accepts: resolved, labelled as JSON, parsed,
    and with a success status. *)
Definition successful_response (resp : Response Result) (result : Result) : Prop :=
  not_json (content_type resp) = false /\
  json resp = Resolved result /\
  ok resp = true.

(** The state after a failed resolution: only the banner differs. *)
Definition resolution_failed (msg : string) (st : State) : State :=
  apply_cmd (setUploadStatus (Some (error_banner msg))) st.

(** The fetch or the parse of the candidate list fails with [err]. *)
Definition listing_fails (api : Api) (err : JsError) : Prop :=
  get api "/candidates/" = Rejected err \/
  exists resp, get api "/candidates/" = Resolved resp /\ json resp = Rejected err.

(** The state after an upload that failed past the name check: the
    error banner, the busy flag lowered, the duplicate state reset. *)
Definition upload_failed (msg : string) (st : State) : State :=
  apply_cmd (setIsUploading false)
    (apply_cmd (setUploadStatus (Some (error_banner msg))) (uploading st)).

(** Whether the run executed [event.target.value = '']. *)
Definition resets_input (t : list Event) : bool :=
  existsb (fun e => match e with Did reset_file_input => true | _ => false end) t.

(** The array entry built from a row and its decision. *)
Definition resolution_of (item : DuplicateCandidate) (d : Decision) : Resolution :=
  {| res_new := new item; res_action := action d; res_existing_id := existing_id d |}.

(** ** The candidate table (lines 375-427)

    Strings are read as UTF-8 byte sequences: the characters the code
    looks for ([;], [.], the letters of the extensions) are single bytes
    that occur in no multi-byte sequence, and the white space that
    [trim] strips is listed below by its encoding. *)

(** [s.split(sep)] for a one-character separator: never empty, the
    pieces between the separators in order. *)
Fixpoint split_on (sep : ascii) (s : string) : list string :=
  match s with
  | EmptyString => [EmptyString]
  | String c rest =>
      if Ascii.eqb c sep then EmptyString :: split_on sep rest
      else match split_on sep rest with
           | piece :: pieces => String c piece :: pieces
           | [] => [String c EmptyString]
           end
  end.

(** How many times [sep] occurs in [s]. *)
Fixpoint occurrences (sep : ascii) (s : string) : nat :=
  match s with
  | EmptyString => 0
  | String c rest => (if Ascii.eqb c sep then 1 else 0) + occurrences sep rest
  end.

Definition byte_in (lo hi : N) (c : ascii) : bool :=
  ((lo <=? N_of_ascii c) && (N_of_ascii c <=? hi))%N.

Definition byte_is (n : N) (c : ascii) : bool := (N_of_ascii c =? n)%N.

(** One-byte white space: TAB, LF, VT, FF, CR and the space. *)
Definition ws1 (c : ascii) : bool := byte_in 9 13 c || byte_is 32 c.

(** Two-byte white space: U+00A0. *)
Definition ws2 (c1 c2 : ascii) : bool := byte_is 194 c1 && byte_is 160 c2.

(** Three-byte white space: U+1680, U+2000 to U+200A, U+2028, U+2029,
    U+202F, U+205F, U+3000 and U+FEFF. *)
Definition ws3 (c1 c2 c3 : ascii) : bool :=
  (byte_is 225 c1 && byte_is 154 c2 && byte_is 128 c3) ||
  (byte_is 226 c1 && byte_is 128 c2 &&
     (byte_in 128 138 c3 || byte_is 168 c3 || byte_is 169 c3 || byte_is 175 c3)) ||
  (byte_is 226 c1 && byte_is 129 c2 && byte_is 159 c3) ||
  (byte_is 227 c1 && byte_is 128 c2 && byte_is 128 c3) ||
  (byte_is 239 c1 && byte_is 187 c2 && byte_is 191 c3).

(** [String.prototype.trimStart]. *)
Fixpoint trimStart (s : string) : string :=
  match s with
  | EmptyString => EmptyString
  | String c1 r1 =>
      if ws1 c1 then trimStart r1
      else match r1 with
           | EmptyString => s
           | String c2 r2 =>
               if ws2 c1 c2 then trimStart r2
               else match r2 with
                    | EmptyString => s
                    | String c3 r3 => if ws3 c1 c2 c3 then trimStart r3 else s
                    end
           end
  end.

(** [trimStart] on the reversed string: the bytes of each white-space
    character arrive last byte first. *)
Fixpoint trimStart_reversed (s : string) : string :=
  match s with
  | EmptyString => EmptyString
  | String c1 r1 =>
      if ws1 c1 then trimStart_reversed r1
      else match r1 with
           | EmptyString => s
           | String c2 r2 =>
               if ws2 c2 c1 then trimStart_reversed r2
               else match r2 with
                    | EmptyString => s
                    | String c3 r3 =>
                        if ws3 c3 c2 c1 then trimStart_reversed r3 else s
                    end
           end
  end.

Fixpoint reverse_onto (s acc : string) : string :=
  match s with
  | EmptyString => acc
  | String c rest => reverse_onto rest (String c acc)
  end.

Definition reverse (s : string) : string := reverse_onto s EmptyString.

(** [String.prototype.trimEnd]. *)
Definition trimEnd (s : string) : string :=
  reverse (trimStart_reversed (reverse s)).

(** [String.prototype.trim]. *)
Definition trim (s : string) : string := trimEnd (trimStart s).

(** A table cell: a run of badges or the grey placeholder text. *)
Inductive Cell :=
| Badges (labels : list string)
| Placeholder (text : string).

Record TableRow := {
  row_key : Z;
  cell_name : string;
  cell_email : string;
  cell_tags : Cell;
  cell_tests : Cell;
  status_class : string;
  status_text : string;
  action_label : string;
  action_alert : string
}.

(** Lines 376-426: one [<tr>]. *)
Definition render_candidate (candidate : Candidate) : TableRow :=
  {| row_key := id candidate;
     cell_name := name candidate;
     cell_email := email candidate;
     cell_tags :=
       match tags candidate with
       | Some t =>
           if truthy t then Badges (map trim (split_on ";" t))
           else Placeholder "No tags"
       | None => Placeholder "No tags"
       end;
     cell_tests :=
       match testsAssigned candidate with
       | [] => Placeholder "No tests assigned"
       | tests => Badges (map snd tests)
       end;
     status_class :=
       if completed candidate then "bg-green-100 text-green-800"
       else "bg-yellow-100 text-yellow-800";
     status_text := if completed candidate then "Completed" else "Pending";
     action_label :=
       if completed candidate then "View Results" else "Send Reminder";
     action_alert := "View results for " ++ name candidate |}.

(** Lines 374-428: the table body. *)
Definition render_table (st : State) : list TableRow :=
  map render_candidate (candidates st).

(** The first and the last byte are visible ASCII characters. *)
Definition visible (c : ascii) : bool := byte_in 33 126 c.

Definition visible_ends (t : string) : bool :=
  match t with String a _ => visible a | EmptyString => false end &&
  match reverse t with String b _ => visible b | EmptyString => false end.

(** A label usable as a tag: no semicolon inside, a visible character at
    each end. *)
Definition tag_label (t : string) : Prop :=
  occurrences ";" t = 0%nat /\ visible_ends t = true.

(** The string begins with a white-space character. *)
Definition ws_head (s : string) : bool :=
  match s with
  | String c1 r1 =>
      ws1 c1 ||
      match r1 with
      | String c2 r2 =>
          ws2 c1 c2 ||
          match r2 with String c3 _ => ws3 c1 c2 c3 | EmptyString => false end
      | EmptyString => false
      end
  | EmptyString => false
  end.

(** The string ends with a white-space character. *)
Definition ws_tail (s : string) : bool :=
  match reverse s with
  | String c1 r1 =>
      ws1 c1 ||
      match r1 with
      | String c2 r2 =>
          ws2 c2 c1 ||
          match r2 with String c3 _ => ws3 c3 c2 c1 | EmptyString => false end
      | EmptyString => false
      end
  | EmptyString => false
  end.

(** ** The event loop

    Handlers overlap: while one is suspended on a request the user can
    fire another, and replies arrive in any order.  A configuration is
    the component state together with the suspended handlers. *)

(** The synchronous effects of [p] up to its first await. *)
Fixpoint settle (p : Async unit) (st : State) : State :=
  match p with
  | Act c k => settle k (apply_cmd c st)
  | _ => st
  end.

(** The await [p] stops at, if any. *)
Fixpoint suspended (p : Async unit) : option (Async unit) :=
  match p with
  | Ret _ | Throw _ => None
  | Act _ k => suspended k
  | _ => Some p
  end.

(** The request a suspended handler waits for. *)
Definition awaited (p : Async unit) : option Request :=
  match p with
  | AwaitGet path _ => Some (GET path)
  | AwaitUpload path form _ => Some (UPLOAD path form)
  | AwaitPost path body _ => Some (POST path body)
  | _ => None
  end.

(** A settled promise delivered to a suspended handler. *)
Inductive Reply :=
| ListReply (o : Settled (Response (list Candidate)))
| ResultReply (o : Settled (Response Result)).

Definition resume (p : Async unit) (r : Reply) : option (Async unit) :=
  match p, r with
  | AwaitGet _ k, ListReply o => Some (k o)
  | AwaitUpload _ _ k, ResultReply o => Some (k o)
  | AwaitPost _ _ k, ResultReply o => Some (k o)
  | _, _ => None
  end.

(** Whether the number [z] is printed by [String] as a plain decimal:
    from 1e21 on, in magnitude, the exponent notation is used. *)
Definition printed_plain (z : Z) : bool := (Z.abs z <? 10 ^ 21)%Z.

(** [parseInt(String(z))] may be [chosen]: a plain decimal reads back as
    the number itself; of the exponent notation ([1e+21], [-2.5e+30])
    only the sign and the one digit before the point or the [e] are
    read. *)
Definition parsed_back (z chosen : Z) : bool :=
  if printed_plain z then (chosen =? z)%Z
  else ((1 <=? Z.abs chosen) && (Z.abs chosen <=? 9) &&
        (Z.sgn chosen =? Z.sgn z))%Z.

(** What the user can do to the rendered screen.  (The per-candidate
    button of line 421 only raises an alert and is left out.) *)
Inductive UiEvent :=
| FileChange (event : ChangeEvent)
| ClickClose
| ClickCancel
| ClickProcess
| PickUpdate (index : nat)
| PickSkip (index : nat)
| PickExisting (index : nat) (chosen : Z).

(** Row [index] of the dialog, when the page shows it. *)
Definition dialog_row (page : Page) (index : nat) : option RowView :=
  match modal page with
  | Some m => rows m !! index
  | None => None
  end.

(** The handler a UI event runs on the screen rendered from [st], when
    that screen has the control and it is enabled.  The selector reports
    [parseInt] of the value of one of the options it lists, that is of
    the printed id of one of the row's matches (line 323). *)
Definition on_event (st : State) (e : UiEvent) : option (Async unit) :=
  match render st with
  | MainScreen page =>
      match e with
      | FileChange event =>
          if input_disabled (file_input page) then None
          else Some (handleFileUpload event)
      | ClickClose | ClickCancel =>
          match modal page with
          | Some _ => Some closeDuplicateModal
          | None => None
          end
      | ClickProcess =>
          match modal page with
          | Some _ => Some (handleDuplicateResolution st)
          | None => None
          end
      | PickUpdate index =>
          match dialog_row page index with
          | Some row => Some (chooseUpdate st index (row_item row))
          | None => None
          end
      | PickSkip index =>
          match dialog_row page index with
          | Some row => Some (chooseSkip st index)
          | None => None
          end
      | PickExisting index chosen =>
          match dialog_row page index with
          | Some row =>
              match selector row with
              | Some (_, options) =>
                  if existsb (fun m => parsed_back (id m) chosen) options
                  then Some (selectExisting st index chosen)
                  else None
              | None => None
              end
          | None => None
          end
      end
  | _ => None
  end.

Record Config := {
  view : State;
  pending : list (Async unit)
}.

(** Run [p] from the current state up to its first await. *)
Definition start (p : Async unit) (c : Config) : Config :=
  {| view := settle p (view c);
     pending := pending c ++ option_list (suspended p) |}.

(** The component after mounting: the effect of lines 18-36 has started
    the load. *)
Definition mounted : Config :=
  start fetchCandidates {| view := initial_state; pending := [] |}.

Inductive Step :=
| Ui (e : UiEvent)
| Retry
| Settle (i : nat) (r : Reply).

(** One turn of the event loop: a UI event on the current screen, the
    Retry button of the error screen (which reloads the page), or the
    reply to the [i]-th suspended handler. *)
Definition step (c : Config) (s : Step) : option Config :=
  match s with
  | Ui e =>
      match on_event (view c) e with
      | Some p => Some (start p c)
      | None => None
      end
  | Retry =>
      match render (view c) with
      | ErrorScreen _ _ => Some mounted
      | _ => None
      end
  | Settle i r =>
      match pending c !! i with
      | Some p =>
          match resume p r with
          | Some q => Some (start q {| view := view c; pending := delete i (pending c) |})
          | None => None
          end
      | None => None
      end
  end.

Fixpoint steps (c : Config) (l : list Step) : option Config :=
  match l with
  | [] => Some c
  | s :: l =>
      match step c s with
      | Some c' => steps c' l
      | None => None
      end
  end.

Definition reachable (c : Config) : Prop :=
  exists l, steps mounted l = Some c.

(** The requests outstanding in a configuration. *)
Definition outstanding (c : Config) : list Request :=
  omap awaited (pending c).

Definition is_upload (r : Request) : bool :=
  match r with UPLOAD _ _ => true | _ => false end.

(** The id [z] recorded for an update points at match [m]: it is the
    match's id (update radio) or what the selector read back from its
    printed form. *)
Definition points_at (m : Candidate) (z : Z) : Prop :=
  z = id m \/ parsed_back (id m) z = true.

(** A recorded decision that fits its row: a skip without id, or an
    update pointing at one of the row's matches. *)
Definition decision_fits (item : DuplicateCandidate) (d : Decision) : Prop :=
  d = {| action := skip; existing_id := None |} \/
  exists m z, m ∈ existing item /\ points_at m z /\
              d = {| action := update; existing_id := Some z |}.

(** The dialog state is well formed: without duplicate data there are
    no decisions; with it there is at least one row and every decision
    sits on a row and fits it. *)
Definition dialog_well_formed (st : State) : Prop :=
  match duplicateData st with
  | None => duplicateDecisions st = ∅
  | Some data =>
      data <> [] /\
      forall i d, duplicateDecisions st !! i = Some d ->
                  exists item, data !! i = Some item /\ decision_fits item d
  end.

(** A submitted entry that fits its row. *)
Definition resolution_fits (item : DuplicateCandidate) (res : Resolution) : Prop :=
  res_new res = new item /\
  ((res_action res = skip /\ res_existing_id res = None) \/
   (res_action res = update /\
    exists m z, m ∈ existing item /\ points_at m z /\ res_existing_id res = Some z)).

(** A submitted entry whose update names the id of one of its row's
    matches. *)
Definition resolution_names_match (item : DuplicateCandidate) (res : Resolution) : Prop :=
  res_new res = new item /\
  ((res_action res = skip /\ res_existing_id res = None) \/
   (res_action res = update /\
    exists m, m ∈ existing item /\ res_existing_id res = Some (id m))).

(** Every match of every row has an id printed as a plain decimal. *)
Definition plain_ids (data : list DuplicateCandidate) : Prop :=
  Forall (fun item => Forall (fun m => printed_plain (id m) = true) (existing item)) data.

(** *** Predicates for the invariant *)

(** Every synchronous stretch of [p], whatever the replies, moves the
    state along [Rs] when it ends at an await (which satisfies [W]) and
    along [Rt] when it ends the handler. *)
Inductive follows (Rs Rt : State -> State -> Prop) (W : Async unit -> Prop) :
    Async unit -> Prop :=
| follows_done p :
    suspended p = None ->
    (forall st, Rt st (settle p st)) ->
    follows Rs Rt W p
| follows_wait p q :
    suspended p = Some q ->
    (forall st, Rs st (settle p st)) ->
    W q ->
    (forall r q', resume q r = Some q' -> follows Rs Rt W q') ->
    follows Rs Rt W p.

(** An upload is in progress. *)
Definition busy (st : State) : Prop :=
  isUploading st = true /\ duplicateData st = None.

(** What a handler other than the upload may do to the state. *)
Definition aside (st st' : State) : Prop :=
  (dialog_well_formed st -> dialog_well_formed st') /\
  isUploading st' = isUploading st /\
  (duplicateData st = None -> duplicateData st' = None).

Definition not_uploading (q : Async unit) : Prop :=
  match awaited q with Some (UPLOAD _ _) => False | _ => True end.

Definition bystander : Async unit -> Prop := follows aside aside not_uploading.

Definition bystander_waiting (q : Async unit) : Prop :=
  not_uploading q /\ forall r q', resume q r = Some q' -> bystander q'.

(** What the upload does while it holds the busy flag, and when it ends. *)
Definition upload_keeps (st st' : State) : Prop :=
  dialog_well_formed st -> busy st -> dialog_well_formed st' /\ busy st'.

Definition upload_ends (st st' : State) : Prop :=
  dialog_well_formed st -> busy st -> dialog_well_formed st' /\ isUploading st' = false.

Definition owner : Async unit -> Prop := follows upload_keeps upload_ends (fun _ => True).

Definition owner_waiting (q : Async unit) : Prop :=
  forall r q', resume q r = Some q' -> owner q'.

(** The invariant of the event loop. *)
Definition loop_invariant (c : Config) : Prop :=
  dialog_well_formed (view c) /\
  exists owners others,
    pending c ≡ₚ owners ++ others /\
    Forall bystander_waiting others /\
    ((isUploading (view c) = false /\ owners = []) \/
     (busy (view c) /\ exists o, owners = [o] /\ owner_waiting o)).

(** Whether the request is a POST to the resolution endpoint. *)
Definition is_resolution (r : Request) : bool :=
  match r with
  | POST path _ => String.eqb path "/candidates/resolve-duplicates"
  | _ => false
  end.

(** The upload response that reports the two sample rows as duplicates. *)
Definition duplicates_reply : Reply :=
  ResultReply
    (Resolved (json_response true
       {| r_error := None; r_success := Some []; r_errors := Some [];
          r_duplicates := Some [ada_row; bob_row] |})).

(** Load, upload a roster that comes back with two duplicates, then
    press "Process Selected Actions" twice. *)
Definition double_press : list Step :=
  [ Settle 0 (ListReply (Resolved (json_response true [ada])));
    Ui (FileChange (select_file "roster.csv"));
    Settle 0 duplicates_reply;
    Ui ClickProcess;
    Ui ClickProcess ].

(** The configuration a list of turns leads to from the mounted
    component (the mounted component itself when a turn is impossible). *)
Definition after (l : list Step) : Config :=
  default mounted (steps mounted l).

(** The list loads and the user selects [roster.csv]. *)
Definition select_roster : list Step :=
  [ Settle 0 (ListReply (Resolved (json_response true [ada])));
    Ui (FileChange (select_file "roster.csv")) ].

Definition roster_in_flight : Config := after select_roster.

(** The upload then comes back with the two sample rows as duplicates:
    the dialog is open. *)
Definition dialog_shown : Config :=
  after (select_roster ++ [Settle 0 duplicates_reply]).

(** The reply an [Api] gives to a suspended handler. *)
Definition reply_from (api : Api) (q : Async unit) : option Reply :=
  match q with
  | AwaitGet path _ => Some (ListReply (get api path))
  | AwaitUpload path form _ => Some (ResultReply (uploadFile api path form))
  | AwaitPost path body _ => Some (ResultReply (post api path body))
  | _ => None
  end.

(** ** Facts about the interpreter *)

(** X8: The refresh never throws, sends exactly one GET, and only ever
    touches [candidates]. *)
Lemma run_refreshCandidates api st :
  let r := run api refreshCandidates st in
  completion r = Normal tt ∧
  requests (trace r) = [GET "/candidates/"] ∧
  loading (final r) = loading st ∧
  error (final r) = error st ∧
  uploadStatus (final r) = uploadStatus st ∧
  isUploading (final r) = isUploading st ∧
  showDuplicateModal (final r) = showDuplicateModal st ∧
  duplicateData (final r) = duplicateData st ∧
  duplicateDecisions (final r) = duplicateDecisions st.
Proof.
  unfold refreshCandidates, api_get, response_json; simpl.
  destruct (get api "/candidates/") as [resp|e]; simpl.
  - destruct (json resp) as [data|e]; simpl; repeat split; reflexivity.
  - repeat split; reflexivity.
Qed.

(** Running [p ;; q]: when [p] completes normally, [q] continues from
    where [p] stopped. *)
Lemma run_bind {A B} api (p : Async A) (f : A -> Async B) st :
  run api (bind p f) st =
  match completion (run api p st) with
  | Normal a =>
      let r := run api (f a) (final (run api p st)) in
      {| final := final r;
         trace := trace (run api p st) ++ trace r;
         completion := completion r |}
  | Uncaught e =>
      {| final := final (run api p st);
         trace := trace (run api p st);
         completion := Uncaught e |}
  end.
Proof.
  revert st; induction p as [a|e|c k IH|path k IH|path form k IH|path body k IH];
    intros st; simpl.
  - destruct (run api (f a) st); reflexivity.
  - reflexivity.
  - rewrite IH. destruct (completion (run api k (apply_cmd c st))); reflexivity.
  - rewrite IH. destruct (completion (run api (k (get api path)) st)); reflexivity.
  - rewrite IH.
    destruct (completion (run api (k (uploadFile api path form)) st)); reflexivity.
  - rewrite IH.
    destruct (completion (run api (k (post api path body)) st)); reflexivity.
Qed.

(** Running [try p catch h]: the handler runs from the state in which
    [p] threw. *)
Lemma run_try_catch {A} api (p : Async A) (h : JsError -> Async A) st :
  run api (try_catch p h) st =
  match completion (run api p st) with
  | Normal a => run api p st
  | Uncaught e =>
      let r := run api (h e) (final (run api p st)) in
      {| final := final r;
         trace := trace (run api p st) ++ trace r;
         completion := completion r |}
  end.
Proof.
  revert st; induction p as [a|e|c k IH|path k IH|path form k IH|path body k IH];
    intros st; simpl.
  - reflexivity.
  - destruct (run api (h e) st); reflexivity.
  - rewrite IH. destruct (completion (run api k (apply_cmd c st))); reflexivity.
  - rewrite IH. destruct (completion (run api (k (get api path)) st)); reflexivity.
  - rewrite IH.
    destruct (completion (run api (k (uploadFile api path form)) st)); reflexivity.
  - rewrite IH.
    destruct (completion (run api (k (post api path body)) st)); reflexivity.
Qed.

(** ** The file-name check *)

Local Arguments Ascii.eqb : simpl never.

Ltac split_char :=
  match goal with
  | |- context [Ascii.eqb ?a ?b] =>
      destruct (Ascii.eqb_spec a b); [subst|]; simpl; try congruence
  | |- context [match ?s with EmptyString => _ | String _ _ => _ end] =>
      is_var s; destruct s; simpl; try reflexivity
  end.

(** Anchored at a position, the regex matches exactly the three
    extensions. *)
Lemma anchored_upload_name_regex s :
  anchored upload_name_regex s =
  String.eqb s ".csv" || String.eqb s ".xlsx" || String.eqb s ".xls".
Proof.
  unfold anchored, upload_name_regex.
  destruct s as [|c0 s]; [reflexivity|]; simpl.
  repeat split_char.
Qed.

(** The check of line 59 accepts exactly the names that end in one of
    the three lower-case extensions. *)
Lemma regex_test_upload_name name :
  regex_test upload_name_regex name = accepted_extension name.
Proof.
  unfold accepted_extension.
  induction name as [|c rest IH].
  - reflexivity.
  - cbn [regex_test ends_with]. rewrite IH, anchored_upload_name_regex.
    destruct (String.eqb (String c rest) ".csv"),
             (String.eqb (String c rest) ".xlsx"),
             (String.eqb (String c rest) ".xls"),
             (ends_with rest ".csv"), (ends_with rest ".xlsx"),
             (ends_with rest ".xls"); reflexivity.
Qed.

(** ** Submitting the decisions *)

Ltac unfold_api :=
  unfold click_process, handleDuplicateResolution, handleFileUpload,
    fetchCandidates, refreshCandidates, closeDuplicateModal,
    api_get, api_post, api_uploadFile, response_json, throw_if, length_of.

(** Whatever the API answers, one click posts the decisions array once. *)
Lemma click_process_posts api st dups :
  duplicateData st = Some dups ->
  posted_decisions (trace (click_process api st)) =
  [decisions_array dups (duplicateDecisions st)].
Proof.
  intros Hdata. unfold_api. rewrite Hdata. simpl.
  destruct (post api _ _) as [resp|e]; simpl; [|reflexivity].
  destruct (json resp) as [result|e]; simpl; [|reflexivity].
  destruct (ok resp); simpl; [|reflexivity].
  destruct (r_success result); simpl; [|reflexivity].
  destruct (r_errors result); simpl; [|reflexivity].
  destruct (get api "/candidates/") as [r|e]; simpl; [|reflexivity].
  destruct (json r); reflexivity.
Qed.

(** C1: handleDuplicateResolution submits one decisions array; it has
    the length of the duplicates array, and its entry at each index
    carries the [new] payload of the duplicate row at that index,
    whatever decisions the user recorded. *)
Theorem decisions_follow_duplicates api st dups :
  duplicateData st = Some dups ->
  exists body,
    posted_decisions (trace (click_process api st)) = [body] /\
    length body = length dups /\
    (forall i, res_new <$> body !! i = new <$> dups !! i) /\
    res_new <$> body = new <$> dups.
Proof.
  intros Hdata. exists (decisions_array dups (duplicateDecisions st)).
  split; [now apply click_process_posts|].
  unfold decisions_array. split; [apply length_imap|].
  assert (Hidx : forall i,
    res_new <$> imap (fun index item =>
      {| res_new := new item;
         res_action := action (default {| action := skip; existing_id := None |}
                                 (duplicateDecisions st !! index));
         res_existing_id := existing_id (default {| action := skip; existing_id := None |}
                                 (duplicateDecisions st !! index)) |}) dups !! i
    = new <$> dups !! i).
  { intros i. rewrite list_lookup_imap. destruct (dups !! i); reflexivity. }
  split; [exact Hidx|].
  apply list_eq. intros i. rewrite !list_lookup_fmap. apply Hidx.
Qed.

Lemma decisions_follow_duplicates_witness :
  exists body,
    posted_decisions (trace (click_process api_up resolving_state)) = [body] /\
    length body = 2%nat.
Proof.
  destruct (decisions_follow_duplicates api_up resolving_state [ada_row; bob_row])
    as (body & Hposted & Hlen & _).
  - reflexivity.
  - exists body. split; [exact Hposted | exact Hlen].
Defined.

(** C2: a row for which the user recorded no decision is submitted with
    action [skip] and no [existing_id]. *)
Theorem undecided_rows_are_skipped api st dups i item :
  duplicateData st = Some dups ->
  dups !! i = Some item ->
  duplicateDecisions st !! i = None ->
  exists body,
    posted_decisions (trace (click_process api st)) = [body] /\
    body !! i = Some {| res_new := new item; res_action := skip;
                        res_existing_id := None |}.
Proof.
  intros Hdata Hitem Hnone. exists (decisions_array dups (duplicateDecisions st)).
  split; [now apply click_process_posts|].
  unfold decisions_array. rewrite list_lookup_imap, Hitem, Hnone. reflexivity.
Qed.

Lemma undecided_rows_are_skipped_witness :
  exists body,
    posted_decisions (trace (click_process api_down resolving_state)) = [body] /\
    body !! 0%nat = Some {| res_new := new ada_row; res_action := skip;
                            res_existing_id := None |}.
Proof.
  apply (undecided_rows_are_skipped api_down resolving_state [ada_row; bob_row] 0 ada_row);
    reflexivity.
Defined.

(** ** Uploading a file *)

(** C10: with an empty file list handleFileUpload does nothing: the
    state is unchanged, no effect is performed (so no validation
    message) and no request is sent. *)
Theorem upload_without_file_is_noop api st :
  run api (handleFileUpload {| files := [] |}) st =
    {| final := st; trace := []; completion := Normal tt |} /\
  network_call (trace (run api (handleFileUpload {| files := [] |}) st)) = false /\
  suspensions api (handleFileUpload {| files := [] |}) st = [].
Proof. repeat split. Qed.

Ltac upload_start Hfile Hext :=
  unfold_api; rewrite Hfile; rewrite regex_test_upload_name, Hext; simpl.

(** A rejected file name: the validation message and nothing else. *)
Lemma upload_rejected_name api ev file st :
  head (files ev) = Some file ->
  accepted_extension (file_name file) = false ->
  run api (handleFileUpload ev) st =
    {| final := apply_cmd (setIsUploading false)
                  (apply_cmd (setUploadStatus (Some validation_error)) (uploading st));
       trace := [Did (setUploadStatus None); Did (setIsUploading true);
                 Did (setDuplicateData None); Did (setDuplicateDecisions ∅);
                 Did (setUploadStatus (Some validation_error));
                 Did (setIsUploading false)];
       completion := Normal tt |}.
Proof. intros Hfile Hext. upload_start Hfile Hext. reflexivity. Qed.

(** An accepted file name: the upload request goes out first. *)
Lemma upload_accepted_name api ev file st :
  head (files ev) = Some file ->
  accepted_extension (file_name file) = true ->
  exists rest,
    requests (trace (run api (handleFileUpload ev) st)) =
      UPLOAD "/candidates/upload" [("file", file)] :: rest.
Proof.
  intros Hfile Hext. upload_start Hfile Hext. eexists. reflexivity.
Qed.

(** C3 (amended): a file whose name ends in [.csv], [.xlsx] or [.xls],
    spelled in lower case as in the regex of line 59, is sent to the
    upload endpoint; for any other name no request is made and the
    validation message is shown. *)
Theorem upload_extension_gate api ev file st :
  head (files ev) = Some file ->
  let r := run api (handleFileUpload ev) st in
  (accepted_extension (file_name file) = true ->
     network_call (trace r) = true /\
     head (requests (trace r)) = Some (UPLOAD "/candidates/upload" [("file", file)])) /\
  (accepted_extension (file_name file) = false ->
     network_call (trace r) = false /\
     requests (trace r) = [] /\
     uploadStatus (final r) = Some validation_error).
Proof.
  intros Hfile r. split; intros Hext.
  - destruct (upload_accepted_name api ev file st Hfile Hext) as [rest Hreq].
    unfold network_call, r. rewrite Hreq. split; reflexivity.
  - unfold r. rewrite (upload_rejected_name api ev file st Hfile Hext).
    repeat split.
Qed.

Lemma upload_extension_gate_witness :
  network_call (trace (run api_up (handleFileUpload (select_file "roster.xlsx")) idle_state))
    = true /\
  network_call (trace (run api_up (handleFileUpload (select_file "notes.txt")) idle_state))
    = false.
Proof.
  split.
  - apply (upload_extension_gate api_up (select_file "roster.xlsx")
             {| file_name := "roster.xlsx" |} idle_state eq_refl).
    reflexivity.
  - apply (upload_extension_gate api_up (select_file "notes.txt")
             {| file_name := "notes.txt" |} idle_state eq_refl).
    reflexivity.
Defined.

(** C3 (as stated) fails: [ROSTER.CSV] ends in [.csv] up to letter case,
    yet the check of line 59 is case sensitive: no request is made and
    the validation message is shown. *)
Lemma upper_case_extension_rejected :
  accepted_extension_any_case "ROSTER.CSV" = true /\
  network_call (trace (run api_up (handleFileUpload (select_file "ROSTER.CSV")) idle_state))
    = false /\
  uploadStatus (final (run api_up (handleFileUpload (select_file "ROSTER.CSV")) idle_state))
    = Some validation_error.
Proof. repeat split. Qed.

(** A content type that does not mention JSON is rejected by line 75. *)
Lemma not_json_spec ct :
  (ct = None \/ exists s, ct = Some s /\ includes s "application/json" = false) ->
  not_json ct = true.
Proof.
  intros [->|(s & -> & Hs)]; simpl; [reflexivity|].
  rewrite Hs. apply orb_true_r.
Qed.

(** C5: when the upload response has no content-type header, or one that
    does not include [application/json], handleFileUpload reports
    "Server returned non-JSON response" whatever the HTTP status; the
    dialog is not opened, at the end or at any point on the way, and no
    refresh is made. *)
Theorem non_json_response_fails api ev file st resp :
  head (files ev) = Some file ->
  accepted_extension (file_name file) = true ->
  uploadFile api "/candidates/upload" [("file", file)] = Resolved resp ->
  (content_type resp = None \/
   exists ct, content_type resp = Some ct /\ includes ct "application/json" = false) ->
  let r := run api (handleFileUpload ev) st in
  uploadStatus (final r) = Some (error_banner "Server returned non-JSON response") /\
  dialog_open (final r) = false /\
  Forall (fun s => dialog_open (fst s) = false) (suspensions api (handleFileUpload ev) st) /\
  refresh_count (trace r) = 0%nat /\
  requests (trace r) = [UPLOAD "/candidates/upload" [("file", file)]].
Proof.
  intros Hfile Hext Hresp Hct r. apply not_json_spec in Hct.
  unfold r. upload_start Hfile Hext. rewrite Hresp. simpl. rewrite Hct. simpl.
  repeat split.
  - unfold dialog_open, render_modal; simpl. destruct (showDuplicateModal st); reflexivity.
  - repeat constructor. unfold dialog_open, render_modal; simpl.
    destruct (showDuplicateModal st); reflexivity.
Qed.

Lemma non_json_response_fails_witness :
  let api := {| get := get api_up;
                uploadFile := fun _ _ =>
                  Resolved {| ok := true; content_type := Some "text/html";
                              json := Rejected {| message := "Unexpected token <" |} |};
                post := post api_up |} in
  uploadStatus (final (run api (handleFileUpload (select_file "roster.csv")) idle_state))
    = Some (error_banner "Server returned non-JSON response").
Proof.
  intros api.
  apply (non_json_response_fails api (select_file "roster.csv")
           {| file_name := "roster.csv" |} idle_state
           {| ok := true; content_type := Some "text/html";
              json := Rejected {| message := "Unexpected token <" |} |}
           eq_refl eq_refl eq_refl).
  right. exists "text/html". split; reflexivity.
Defined.

(** The dialog shows the duplicate rows it was given, in order. *)
Lemma render_modal_rows st data :
  showDuplicateModal st = true ->
  duplicateData st = Some data ->
  (fmap row_item ∘ rows) <$> render_modal st = Some data.
Proof.
  intros Hshow Hdata. unfold render_modal. rewrite Hshow, Hdata. simpl. f_equal.
  apply list_eq. intros i. rewrite list_lookup_fmap, list_lookup_imap.
  destruct (data !! i); reflexivity.
Qed.

(** Without duplicate data there is no dialog. *)
Lemma dialog_closed_without_data st :
  duplicateData st = None -> dialog_open st = false.
Proof.
  intros Hdata. unfold dialog_open, render_modal. rewrite Hdata.
  destruct (showDuplicateModal st); reflexivity.
Qed.

(** C4: on a successful upload response with a non-empty [duplicates]
    array the dialog opens on exactly that array, in order, and the
    candidate list is not fetched; with [duplicates] empty or missing the
    success status reports the two counts, the list is fetched exactly
    once, and the dialog is not open at the end nor at any point on the
    way. *)
Theorem upload_success_outcome api ev file st resp result :
  head (files ev) = Some file ->
  accepted_extension (file_name file) = true ->
  uploadFile api "/candidates/upload" [("file", file)] = Resolved resp ->
  successful_response resp result ->
  let r := run api (handleFileUpload ev) st in
  (forall d ds, r_duplicates result = Some (d :: ds) ->
     duplicateData (final r) = Some (d :: ds) /\
     showDuplicateModal (final r) = true /\
     (fmap row_item ∘ rows) <$> render_modal (final r) = Some (d :: ds) /\
     refresh_count (trace r) = 0%nat) /\
  (r_duplicates result = None \/ r_duplicates result = Some [] ->
   forall added failed,
     r_success result = Some added -> r_errors result = Some failed ->
     uploadStatus (final r) =
       Some (success_banner
               ("Successfully added " ++ show_nat (length added) ++
                " candidates. " ++ show_nat (length failed) ++ " errors.")) /\
     refresh_count (trace r) = 1%nat /\
     dialog_open (final r) = false /\
     Forall (fun s => dialog_open (fst s) = false)
            (suspensions api (handleFileUpload ev) st)).
Proof.
  intros Hfile Hext Hresp (Hct & Hjson & Hok) r. split.
  - intros d ds Hdup.
    assert (Hrun : final r = apply_cmd (setIsUploading false)
                     (apply_cmd (setShowDuplicateModal true)
                        (apply_cmd (setDuplicateData (Some (d :: ds))) (uploading st)))
                   /\ refresh_count (trace r) = 0%nat).
    { unfold r. upload_start Hfile Hext. rewrite Hresp. simpl.
      rewrite Hct, Hjson, Hok. simpl. unfold has_duplicates. rewrite Hdup.
      split; reflexivity. }
    destruct Hrun as [-> Hcount].
    repeat split; [|exact Hcount].
    apply render_modal_rows; reflexivity.
  - intros Hdup added failed Hadded Hfailed.
    assert (Hnone : has_duplicates result = None).
    { unfold has_duplicates. destruct Hdup as [-> | ->]; reflexivity. }
    unfold r. upload_start Hfile Hext. rewrite Hresp. simpl.
    rewrite Hct, Hjson, Hok. simpl. rewrite Hnone, Hadded. simpl.
    rewrite Hfailed. simpl.
    destruct (get api "/candidates/") as [listing|e]; simpl.
    + destruct (json listing) as [data|e]; simpl;
        (repeat split;
         [apply dialog_closed_without_data; reflexivity
         |repeat constructor; apply dialog_closed_without_data; reflexivity]).
    + repeat split;
        [apply dialog_closed_without_data; reflexivity
        |repeat constructor; apply dialog_closed_without_data; reflexivity].
Qed.

Lemma upload_success_outcome_witness :
  uploadStatus (final (run api_up (handleFileUpload (select_file "roster.csv")) idle_state))
    = Some (success_banner "Successfully added 1 candidates. 0 errors.") /\
  refresh_count (trace (run api_up (handleFileUpload (select_file "roster.csv")) idle_state))
    = 1%nat.
Proof.
  destruct (upload_success_outcome api_up (select_file "roster.csv")
              {| file_name := "roster.csv" |} idle_state
              (json_response true
                 {| r_error := None; r_success := Some [ada_other];
                    r_errors := Some []; r_duplicates := None |})
              {| r_error := None; r_success := Some [ada_other];
                 r_errors := Some []; r_duplicates := None |}
              eq_refl eq_refl eq_refl) as [_ Hclean].
  - repeat split.
  - destruct (Hclean (or_introl eq_refl) [ada_other] [] eq_refl eq_refl)
      as (Hstatus & Hcount & _).
    split; [exact Hstatus | exact Hcount].
Defined.

(** ** Outcome of the resolution *)

(** C6: after a successful response handleDuplicateResolution shows the
    counts, closes the dialog, clears the duplicate data and the
    decisions and fetches the list once.  When the request is rejected,
    the body cannot be parsed, or the status is not ok, it shows the
    error's message (for a non-ok status the body's [error] string, or
    else the fallback) and changes nothing else: the dialog stays open
    on the same rows and decisions, and no refresh is made. *)
Theorem resolution_outcome api st dups :
  duplicateData st = Some dups ->
  let sent := post api "/candidates/resolve-duplicates"
                (decisions_array dups (duplicateDecisions st)) in
  let r := click_process api st in
  (forall resp result processed failed,
     sent = Resolved resp -> json resp = Resolved result -> ok resp = true ->
     r_success result = Some processed -> r_errors result = Some failed ->
     uploadStatus (final r) =
       Some (success_banner
               ("Successfully processed " ++ show_nat (length processed) ++
                " candidates. " ++ show_nat (length failed) ++ " errors.")) /\
     showDuplicateModal (final r) = false /\
     duplicateData (final r) = None /\
     duplicateDecisions (final r) = ∅ /\
     dialog_open (final r) = false /\
     refresh_count (trace r) = 1%nat) /\
  (forall err,
     sent = Rejected err ->
     final r = resolution_failed
                 (js_or (Some (message err))
                        "Failed to resolve duplicates. Please try again.") st /\
     render_modal (final r) = render_modal st /\
     refresh_count (trace r) = 0%nat) /\
  (forall resp err,
     sent = Resolved resp -> json resp = Rejected err ->
     final r = resolution_failed
                 (js_or (Some (message err))
                        "Failed to resolve duplicates. Please try again.") st /\
     render_modal (final r) = render_modal st /\
     refresh_count (trace r) = 0%nat) /\
  (forall resp result,
     sent = Resolved resp -> json resp = Resolved result -> ok resp = false ->
     final r = resolution_failed
                 (js_or (r_error result) "Failed to resolve duplicates") st /\
     render_modal (final r) = render_modal st /\
     refresh_count (trace r) = 0%nat).
Proof.
  intros Hdata sent r. unfold r, sent.
  split; [|split; [|split]].
  - intros resp result processed failed Hsent Hjson Hok Hs He.
    unfold_api. rewrite Hdata. simpl. rewrite Hsent. simpl.
    rewrite Hjson. simpl. rewrite Hok. simpl. rewrite Hs. simpl.
    rewrite He. simpl. unfold refresh_count.
    destruct (get api "/candidates/") as [listing|e]; simpl;
      [destruct (json listing); simpl|]; repeat split.
  - intros err Hsent.
    unfold_api. rewrite Hdata. simpl. rewrite Hsent. repeat split.
  - intros resp err Hsent Hjson.
    unfold_api. rewrite Hdata. simpl. rewrite Hsent. simpl.
    rewrite Hjson. repeat split.
  - intros resp result Hsent Hjson Hok.
    unfold_api. rewrite Hdata. simpl. rewrite Hsent. simpl.
    rewrite Hjson. simpl. rewrite Hok.
    destruct (r_error result) as [[|c msg]|]; repeat split.
Qed.

Lemma resolution_outcome_witness :
  uploadStatus (final (click_process api_up resolving_state)) =
    Some (success_banner "Successfully processed 1 candidates. 1 errors.") /\
  dialog_open (final (click_process api_up resolving_state)) = false /\
  final (click_process api_down resolving_state) =
    resolution_failed "Failed to fetch" resolving_state.
Proof.
  destruct (resolution_outcome api_up resolving_state [ada_row; bob_row] eq_refl)
    as (Hok & _).
  destruct (resolution_outcome api_down resolving_state [ada_row; bob_row] eq_refl)
    as (_ & Hdown & _).
  destruct (Hok (json_response true
                   {| r_error := None; r_success := Some [ada];
                      r_errors := Some ["row 2"]; r_duplicates := None |})
                {| r_error := None; r_success := Some [ada];
                   r_errors := Some ["row 2"]; r_duplicates := None |}
                [ada] ["row 2"] eq_refl eq_refl eq_refl eq_refl eq_refl)
    as (Hstatus & _ & _ & _ & Hclosed & _).
  destruct (Hdown {| message := "Failed to fetch" |} eq_refl) as (Hfinal & _).
  split; [exact Hstatus | split; [exact Hclosed | exact Hfinal]].
Defined.

(** ** Loading and refreshing the list *)

(** C8: when the fetch of the initial load, or the parse of its body,
    fails, the state holds the failure's message, an empty candidate
    list and no loading flag, and (the message being a non-empty string)
    the error screen with that message and the Retry button is rendered;
    when the refresh fails the same way, the failure is written to the
    console and the state, hence the screen, is left as it was. *)
Theorem load_and_refresh_failures api st err :
  listing_fails api err ->
  let loaded := run api fetchCandidates st in
  let refreshed := run api refreshCandidates st in
  (error (final loaded) = Some (message err) /\
   candidates (final loaded) = [] /\
   loading (final loaded) = false /\
   (truthy (message err) = true ->
    render (final loaded) =
      ErrorScreen (message err)
        {| btn_label := "Retry"; btn_disabled := false; btn_onClick := reloadPage |})) /\
  (final refreshed = st /\
   effects (trace refreshed) = [console_error "Error refreshing candidates:" err] /\
   render (final refreshed) = render st /\
   completion refreshed = Normal tt).
Proof.
  intros Hfail loaded refreshed. unfold loaded, refreshed. unfold_api. simpl.
  destruct Hfail as [Hget | (resp & Hget & Hjson)]; rewrite Hget; simpl;
    [|rewrite Hjson; simpl];
    (split; [split; [reflexivity|split; [reflexivity|split; [reflexivity|]]]
            |repeat split]);
    intros Hmsg; unfold render; simpl; rewrite Hmsg; reflexivity.
Qed.

Lemma load_and_refresh_failures_witness :
  render (final (run api_down fetchCandidates initial_state)) =
    ErrorScreen "Failed to fetch"
      {| btn_label := "Retry"; btn_disabled := false; btn_onClick := reloadPage |} /\
  final (run api_down refreshCandidates idle_state) = idle_state.
Proof.
  split.
  - apply (load_and_refresh_failures api_down initial_state
             {| message := "Failed to fetch" |}); [left|]; reflexivity.
  - apply (load_and_refresh_failures api_down idle_state
             {| message := "Failed to fetch" |}). left; reflexivity.
Defined.

(** ** Resetting the duplicate state *)

(** C9: the Cancel button closes the dialog, nulls the duplicate data
    and empties the decisions; and every invocation of handleFileUpload
    that starts an upload (a file is selected; the other case is the
    no-op of line 50) begins by clearing the status, raising the busy
    flag and resetting the duplicate data and the decisions, before the
    name is checked and before any request, so that every request of the
    upload is made with no duplicate data and no decisions. *)
Theorem cancel_and_upload_reset api st ev file :
  (let c := run api closeDuplicateModal st in
   showDuplicateModal (final c) = false /\
   duplicateData (final c) = None /\
   duplicateDecisions (final c) = ∅ /\
   dialog_open (final c) = false) /\
  (head (files ev) = Some file ->
   let r := run api (handleFileUpload ev) st in
   (exists rest,
      trace r = Did (setUploadStatus None) :: Did (setIsUploading true) ::
                Did (setDuplicateData None) :: Did (setDuplicateDecisions ∅) :: rest /\
      requests (trace r) = requests rest) /\
   Forall (fun s => duplicateData (fst s) = None /\ duplicateDecisions (fst s) = ∅)
          (suspensions api (handleFileUpload ev) st)).
Proof.
  split; [repeat split|].
  intros Hfile r. unfold r.
  destruct (accepted_extension (file_name file)) eqn:Hext.
  - upload_start Hfile Hext. split; [eexists; split; reflexivity|].
    constructor; [split; reflexivity|].
    destruct (uploadFile api _ _) as [resp|e]; simpl; [|constructor].
    destruct (not_json (content_type resp)); simpl; [constructor|].
    destruct (json resp) as [result|e]; simpl; [|constructor].
    destruct (ok resp); simpl; [|constructor].
    destruct (has_duplicates result); simpl; [constructor|].
    destruct (r_success result); simpl; [|constructor].
    destruct (r_errors result); simpl; [|constructor].
    constructor; [split; reflexivity|].
    destruct (get api "/candidates/") as [listing|e]; simpl; [|constructor].
    destruct (json listing); simpl; constructor.
  - upload_start Hfile Hext. split; [eexists; split; reflexivity|constructor].
Qed.

Lemma cancel_and_upload_reset_witness :
  Forall (fun s => duplicateData (fst s) = None /\ duplicateDecisions (fst s) = ∅)
         (suspensions api_up (handleFileUpload (select_file "roster.csv")) resolving_state).
Proof.
  apply (cancel_and_upload_reset api_up resolving_state (select_file "roster.csv")
           {| file_name := "roster.csv" |}).
  reflexivity.
Defined.

(** ** Controls while a request is outstanding *)

(** While an upload is suspended on any of its requests, the file input
    is disabled and its label reads "Uploading...". *)
Lemma upload_control_disabled api st ev :
  Forall (fun s =>
            input_disabled (file_input (render_page (fst s))) = true /\
            upload_label (render_page (fst s)) = "Uploading...")
         (suspensions api (handleFileUpload ev) st).
Proof.
  unfold handleFileUpload.
  destruct (head (files ev)) as [file|]; [|constructor]. simpl.
  destruct (regex_test upload_name_regex (file_name file)); simpl; [|constructor].
  unfold_api. simpl.
  constructor; [split; reflexivity|].
  destruct (uploadFile api _ _) as [resp|e]; simpl; [|constructor].
  destruct (not_json (content_type resp)); simpl; [constructor|].
  destruct (json resp) as [result|e]; simpl; [|constructor].
  destruct (ok resp); simpl; [|constructor].
  destruct (has_duplicates result); simpl; [constructor|].
  destruct (r_success result); simpl; [|constructor].
  destruct (r_errors result); simpl; [|constructor].
  constructor; [split; reflexivity|].
  destruct (get api "/candidates/") as [listing|e]; simpl; [|constructor].
  destruct (json listing); simpl; constructor.
Qed.

(** While the initial load is suspended, only the loading screen is
    rendered: there is no control to press. *)
Lemma load_shows_no_control api st :
  Forall (fun s => render (fst s) = LoadingScreen) (suspensions api fetchCandidates st).
Proof.
  unfold_api. simpl. constructor; [reflexivity|].
  destruct (get api "/candidates/") as [listing|e]; simpl; [|constructor].
  destruct (json listing); simpl; constructor.
Qed.

(** While a resolution is suspended on its POST, the state is the one
    the button was rendered from, whatever it was. *)
Lemma resolution_suspends_unchanged api st dups :
  duplicateData st = Some dups ->
  head (suspensions api (handleDuplicateResolution st) st) =
  Some (st, POST "/candidates/resolve-duplicates"
              (decisions_array dups (duplicateDecisions st))).
Proof. intros Hdata. unfold_api. rewrite Hdata. reflexivity. Qed.

(** A row without a decision is drawn with "update" checked, although
    it is submitted as a skip. *)
Lemma undecided_row_shows_update (decisions : gmap nat Decision) index item :
  decisions !! index = None ->
  update_checked (render_row decisions index item) = true /\
  skip_checked (render_row decisions index item) = false.
Proof. intros Hnone. unfold render_row. rewrite Hnone. split; reflexivity. Qed.

(** The "Process Selected Actions" button is never disabled. *)
Lemma process_button_never_disabled st m :
  render_modal st = Some m -> btn_disabled (process_button m) = false.
Proof.
  unfold render_modal. destruct (showDuplicateModal st); [|discriminate].
  destruct (duplicateData st); [|discriminate]. intros [= <-]. reflexivity.
Qed.

(** C7 (fails for resolve): with the dialog open on two rows, the
    resolution is suspended on its POST in the very state the dialog was
    rendered from; in that state "Process Selected Actions" is rendered
    enabled and unrelabelled, and pressing it again posts the same
    decisions a second time. *)
Theorem resolve_control_stays_enabled :
  let st := resolving_state in
  let body := [ {| res_new := new ada_row; res_action := skip;
                   res_existing_id := None |};
                {| res_new := new bob_row; res_action := update;
                   res_existing_id := Some 9%Z |} ] in
  head (suspensions api_up (handleDuplicateResolution st) st) =
    Some (st, POST "/candidates/resolve-duplicates" body) /\
  process_button <$> render_modal st =
    Some {| btn_label := "Process Selected Actions"; btn_disabled := false;
            btn_onClick := onProcess |} /\
  posted_decisions (trace (click_process api_up st)) = [body].
Proof. repeat split. Qed.

(** ** Further properties of the handlers *)

Lemma append_cons c (s t : string) : String c s ++ t = String c (s ++ t).
Proof. reflexivity. Qed.

Lemma append_empty_l (s : string) : "" ++ s = s.
Proof. reflexivity. Qed.

Lemma prefix_append needle hay :
  String.prefix needle hay = true <-> exists post, hay = needle ++ post.
Proof.
  revert hay. induction needle as [|a needle IH]; intros hay.
  - destruct hay; simpl; (split; [intros _; eexists; reflexivity | reflexivity]).
  - destruct hay as [|b hay]; simpl.
    + split; [discriminate | intros [post Hpost]; discriminate].
    + destruct (ascii_dec a b) as [->|Hab].
      * rewrite IH. split; intros [post Hpost]; exists post;
          rewrite append_cons in *; congruence.
      * split; [discriminate|].
        intros [post Hpost]. rewrite append_cons in Hpost. congruence.
Qed.

Lemma includes_append hay needle :
  includes hay needle = true <-> exists pre post, hay = pre ++ needle ++ post.
Proof.
  induction hay as [|c hay IH].
  - cbn [includes]. rewrite orb_false_r, prefix_append. split.
    + intros [post Hpost]. exists "", post. exact Hpost.
    + intros (pre & post & Hhay). destruct pre; [|discriminate]. exists post. exact Hhay.
  - cbn [includes]. rewrite orb_true_iff, IH, prefix_append. split.
    + intros [[post Hpost] | (pre & post & Hhay)].
      * exists "", post. exact Hpost.
      * exists (String c pre), post. rewrite append_cons, Hhay. reflexivity.
    + intros (pre & post & Hhay). destruct pre as [|c' pre].
      * left. exists post. exact Hhay.
      * right. exists pre, post. rewrite append_cons in Hhay. congruence.
Qed.

Lemma ends_with_append s suffix :
  ends_with s suffix = true <-> exists stem, s = stem ++ suffix.
Proof.
  induction s as [|c s IH].
  - cbn [ends_with]. rewrite orb_false_r, String.eqb_eq. split.
    + intros <-. exists "". reflexivity.
    + intros [stem Hs]. destruct stem; [exact Hs | discriminate].
  - cbn [ends_with]. rewrite orb_true_iff, IH, String.eqb_eq. split.
    + intros [<- | [stem Hs]].
      * exists "". reflexivity.
      * exists (String c stem). rewrite append_cons, Hs. reflexivity.
    + intros [stem Hs]. destruct stem as [|c' stem].
      * left. exact Hs.
      * right. exists stem. rewrite append_cons in Hs. congruence.
Qed.

(** X1: The check of line 59 passes exactly for the names made of any stem
    followed by [.csv], [.xlsx] or [.xls]: the stem may be empty and may
    itself contain dots, and nothing may follow the extension. *)
Theorem upload_name_accepted_iff name :
  regex_test upload_name_regex name = true <->
  exists stem, name = stem ++ ".csv" \/ name = stem ++ ".xlsx" \/ name = stem ++ ".xls".
Proof.
  rewrite regex_test_upload_name. unfold accepted_extension.
  rewrite !orb_true_iff, !ends_with_append. split.
  - intros [[[stem H] | [stem H]] | [stem H]]; exists stem; tauto.
  - intros [stem [H | [H | H]]]; [left; left | left; right | right]; exists stem; exact H.
Qed.

(** X2: The check of line 75 passes exactly when the header is present and
    contains [application/json] as a substring, in that letter case. *)
Theorem content_type_accepted_iff contentType :
  not_json contentType = false <->
  exists pre post, contentType = Some (pre ++ "application/json" ++ post).
Proof.
  unfold not_json. destruct contentType as [ct|].
  - rewrite orb_false_iff, !negb_false_iff. split.
    + intros [_ Hinc]. apply includes_append in Hinc as (pre & post & ->).
      exists pre, post. reflexivity.
    + intros (pre & post & [= ->]). split.
      * destruct pre; reflexivity.
      * apply includes_append. exists pre, post. reflexivity.
  - split; [discriminate | intros (pre & post & Habs); discriminate].
Qed.

(** X3: An upload that fails after the name check leaves one error banner:
    the rejection's message (or the fallback when it is empty), the
    parse error's message, or for a non-ok status the body's [error]
    string (or "Upload failed").  In each case only the upload request
    was sent, the busy flag is down again, no dialog data is held and the
    candidate list, [loading] and [error] are untouched. *)
Theorem upload_failure_banner api ev file st :
  head (files ev) = Some file ->
  accepted_extension (file_name file) = true ->
  let sent := uploadFile api "/candidates/upload" [("file", file)] in
  let r := run api (handleFileUpload ev) st in
  (forall err,
     sent = Rejected err ->
     final r = upload_failed (js_or (Some (message err))
                                    "Failed to upload file. Please try again.") st /\
     requests (trace r) = [UPLOAD "/candidates/upload" [("file", file)]]) /\
  (forall resp err,
     sent = Resolved resp -> not_json (content_type resp) = false ->
     json resp = Rejected err ->
     final r = upload_failed (js_or (Some (message err))
                                    "Failed to upload file. Please try again.") st /\
     requests (trace r) = [UPLOAD "/candidates/upload" [("file", file)]]) /\
  (forall resp result,
     sent = Resolved resp -> not_json (content_type resp) = false ->
     json resp = Resolved result -> ok resp = false ->
     final r = upload_failed (js_or (r_error result) "Upload failed") st /\
     requests (trace r) = [UPLOAD "/candidates/upload" [("file", file)]]).
Proof.
  intros Hfile Hext sent r. unfold r, sent. split; [|split].
  - intros err Hsent. upload_start Hfile Hext. rewrite Hsent. split; reflexivity.
  - intros resp err Hsent Hct Hjson. upload_start Hfile Hext. rewrite Hsent. simpl.
    rewrite Hct. simpl. rewrite Hjson. split; reflexivity.
  - intros resp result Hsent Hct Hjson Hok. upload_start Hfile Hext.
    rewrite Hsent. simpl. rewrite Hct. simpl. rewrite Hjson. simpl. rewrite Hok.
    destruct (r_error result) as [[|c msg]|]; split; reflexivity.
Qed.

Lemma upload_failure_banner_witness :
  uploadStatus (final (run api_down (handleFileUpload (select_file "roster.xls")) idle_state))
    = Some (error_banner "Failed to fetch").
Proof.
  destruct (upload_failure_banner api_down (select_file "roster.xls")
              {| file_name := "roster.xls" |} idle_state eq_refl eq_refl)
    as (Hrejected & _).
  destruct (Hrejected {| message := "Failed to fetch" |} eq_refl) as [Hfinal _].
  rewrite Hfinal. reflexivity.
Defined.

(** X4: A success response without duplicates whose body lacks the
    [success] or the [errors] array makes line 92 throw: the user sees an
    error banner, not the success one, and the list is not fetched. *)
Theorem upload_malformed_success_body api ev file st resp result :
  head (files ev) = Some file ->
  accepted_extension (file_name file) = true ->
  uploadFile api "/candidates/upload" [("file", file)] = Resolved resp ->
  successful_response resp result ->
  has_duplicates result = None ->
  r_success result = None \/ r_errors result = None ->
  let r := run api (handleFileUpload ev) st in
  final r = upload_failed (message (type_error_undefined "length")) st /\
  refresh_count (trace r) = 0%nat.
Proof.
  intros Hfile Hext Hsent (Hct & Hjson & Hok) Hnone Hmissing r. unfold r.
  upload_start Hfile Hext. rewrite Hsent. simpl. rewrite Hct. simpl.
  rewrite Hjson. simpl. rewrite Hok. simpl. rewrite Hnone.
  destruct Hmissing as [Hs | He].
  - rewrite Hs. split; reflexivity.
  - destruct (r_success result); simpl; [rewrite He|]; split; reflexivity.
Qed.

Lemma upload_malformed_success_body_witness :
  let api := {| get := get api_up;
                uploadFile := fun _ _ =>
                  Resolved (json_response true
                    {| r_error := None; r_success := None; r_errors := Some [];
                       r_duplicates := Some [] |});
                post := post api_up |} in
  type <$> uploadStatus
             (final (run api (handleFileUpload (select_file "roster.csv")) idle_state))
    = Some error_status.
Proof.
  intros api.
  destruct (upload_malformed_success_body api (select_file "roster.csv")
              {| file_name := "roster.csv" |} idle_state
              (json_response true
                 {| r_error := None; r_success := None; r_errors := Some [];
                    r_duplicates := Some [] |})
              {| r_error := None; r_success := None; r_errors := Some [];
                 r_duplicates := Some [] |}
              eq_refl eq_refl eq_refl) as [Hfinal _].
  - repeat split.
  - reflexivity.
  - left. reflexivity.
  - rewrite Hfinal. reflexivity.
Defined.

(** X5: Whatever the API does, an upload with a file selected never ends in
    an unhandled rejection, ends with the busy flag lowered, leaves
    [loading] and [error] alone, and clears the file input exactly when
    the name passed the check (a rejected name stays selected). *)
Theorem upload_always_settles api ev file st :
  head (files ev) = Some file ->
  let r := run api (handleFileUpload ev) st in
  completion r = Normal tt /\
  isUploading (final r) = false /\
  loading (final r) = loading st /\
  error (final r) = error st /\
  resets_input (trace r) = accepted_extension (file_name file).
Proof.
  intros Hfile r. unfold r.
  destruct (accepted_extension (file_name file)) eqn:Hext;
    upload_start Hfile Hext; [|repeat split].
  destruct (uploadFile api _ _) as [resp|e]; simpl; [|repeat split].
  destruct (not_json (content_type resp)); simpl; [repeat split|].
  destruct (json resp) as [result|e]; simpl; [|repeat split].
  destruct (ok resp); simpl; [|repeat split].
  destruct (has_duplicates result); simpl; [repeat split|].
  destruct (r_success result); simpl; [|repeat split].
  destruct (r_errors result); simpl; [|repeat split].
  destruct (get api "/candidates/") as [listing|e]; simpl; [|repeat split].
  destruct (json listing); simpl; repeat split.
Qed.

Lemma upload_always_settles_witness :
  resets_input (trace (run api_up (handleFileUpload (select_file "notes.txt")) idle_state))
    = false.
Proof.
  apply (upload_always_settles api_up (select_file "notes.txt")
           {| file_name := "notes.txt" |} idle_state eq_refl).
Defined.

(** X6: Pressing "Process Selected Actions" never ends in an unhandled
    rejection and never changes [loading], [error] or the busy flag; with
    no duplicate data in state it does nothing at all, and otherwise its
    first request is the POST. *)
Theorem resolution_always_settles api st :
  let r := click_process api st in
  completion r = Normal tt /\
  loading (final r) = loading st /\
  error (final r) = error st /\
  isUploading (final r) = isUploading st /\
  match duplicateData st with
  | None => final r = st /\ trace r = []
  | Some data =>
      head (trace r) =
      Some (Sent (POST "/candidates/resolve-duplicates"
                       (decisions_array data (duplicateDecisions st))))
  end.
Proof.
  intros r. unfold r. unfold_api.
  destruct (duplicateData st) as [data|]; simpl; [|repeat split].
  destruct (post api _ _) as [resp|e]; simpl; [|repeat split].
  destruct (json resp) as [result|e]; simpl; [|repeat split].
  destruct (ok resp); simpl; [|repeat split].
  destruct (r_success result); simpl; [|repeat split].
  destruct (r_errors result); simpl; [|repeat split].
  destruct (get api "/candidates/") as [listing|e]; simpl; [|repeat split].
  destruct (json listing); simpl; repeat split.
Qed.

(** X7: The initial load sends one GET, never ends in an unhandled
    rejection, always lowers [loading] and touches none of the upload or
    dialog cells, whatever the reply; when the reply is ok and its body
    parses to an array of candidates, that array is stored, [error] is
    cleared and the main page is rendered. *)
Theorem load_outcome api st :
  let r := run api fetchCandidates st in
  completion r = Normal tt /\
  loading (final r) = false /\
  requests (trace r) = [GET "/candidates/"] /\
  uploadStatus (final r) = uploadStatus st /\
  isUploading (final r) = isUploading st /\
  showDuplicateModal (final r) = showDuplicateModal st /\
  duplicateData (final r) = duplicateData st /\
  duplicateDecisions (final r) = duplicateDecisions st /\
  (forall ct data,
     get api "/candidates/" =
       Resolved {| ok := true; content_type := ct; json := Resolved data |} ->
     candidates (final r) = data /\ error (final r) = None /\
     render (final r) = MainScreen (render_page (final r))).
Proof.
  intros r. unfold r. unfold_api. simpl.
  destruct (get api "/candidates/") as [resp|e] eqn:Hget; simpl.
  - destruct (json resp) as [data|e] eqn:Hjson; simpl;
      (do 8 (split; [reflexivity|]));
      intros ct data' [= ->]; simpl in Hjson; [|discriminate].
    injection Hjson as <-. repeat split.
  - do 8 (split; [reflexivity|]). intros ct data' [=].
Qed.

(** X9: After a clean upload the table shows what the server then returns,
    not a locally patched list; and if that refresh fails the success
    banner stays and the old list stays. *)
Theorem upload_then_refresh api ev file st resp result added failed :
  head (files ev) = Some file ->
  accepted_extension (file_name file) = true ->
  uploadFile api "/candidates/upload" [("file", file)] = Resolved resp ->
  successful_response resp result ->
  has_duplicates result = None ->
  r_success result = Some added -> r_errors result = Some failed ->
  let r := run api (handleFileUpload ev) st in
  (forall listing data,
     get api "/candidates/" = Resolved listing -> json listing = Resolved data ->
     candidates (final r) = data) /\
  (forall err,
     listing_fails api err ->
     candidates (final r) = candidates st /\
     type <$> uploadStatus (final r) = Some success).
Proof.
  intros Hfile Hext Hsent (Hct & Hjson & Hok) Hnone Hs He r. unfold r.
  upload_start Hfile Hext. rewrite Hsent. simpl. rewrite Hct. simpl.
  rewrite Hjson. simpl. rewrite Hok. simpl. rewrite Hnone, Hs. simpl.
  rewrite He. simpl. split.
  - intros listing data Hget Hdata. rewrite Hget. simpl. rewrite Hdata. reflexivity.
  - intros err [Hget | (listing & Hget & Hdata)]; rewrite Hget; simpl;
      [|rewrite Hdata]; split; reflexivity.
Qed.

Lemma upload_then_refresh_witness :
  candidates (final (run api_up (handleFileUpload (select_file "roster.csv")) idle_state))
    = [ada; ada_other].
Proof.
  destruct (upload_then_refresh api_up (select_file "roster.csv")
              {| file_name := "roster.csv" |} idle_state
              (json_response true
                 {| r_error := None; r_success := Some [ada_other];
                    r_errors := Some []; r_duplicates := None |})
              {| r_error := None; r_success := Some [ada_other];
                 r_errors := Some []; r_duplicates := None |}
              [ada_other] [] eq_refl eq_refl eq_refl) as [Hfresh _].
  - repeat split.
  - reflexivity.
  - reflexivity.
  - reflexivity.
  - apply (Hfresh (json_response true [ada; ada_other]) [ada; ada_other]); reflexivity.
Defined.

(** ** Recording decisions *)

(** Changing the decision of an existing row changes that entry of the
    submitted array and no other; a decision stored under an index past
    the last row is never submitted. *)
Lemma decisions_array_insert dups (m : gmap nat Decision) i d :
  decisions_array dups (<[i := d]> m) =
  match dups !! i with
  | Some item => <[i := resolution_of item d]> (decisions_array dups m)
  | None => decisions_array dups m
  end.
Proof.
  assert (Hlen : length (decisions_array dups m) = length dups)
    by apply length_imap.
  apply list_eq. intros j. unfold decisions_array at 1. rewrite list_lookup_imap.
  destruct (dups !! i) as [item|] eqn:Hi.
  - destruct (decide (i = j)) as [<-|Hij].
    + rewrite list_lookup_insert_eq
        by (rewrite Hlen; eapply lookup_lt_Some; exact Hi).
      rewrite Hi, lookup_insert_eq. reflexivity.
    + rewrite list_lookup_insert_ne by exact Hij.
      unfold decisions_array. rewrite list_lookup_imap, lookup_insert_ne by exact Hij.
      reflexivity.
  - unfold decisions_array. rewrite list_lookup_imap.
    destruct (dups !! j) as [item|] eqn:Hj; [|reflexivity]. simpl.
    rewrite lookup_insert_ne; [reflexivity|].
    intros ->. congruence.
Qed.

(** The state after recording decision [d] for row [index]. *)
Lemma decided_state_posts api st dups index item d :
  duplicateData st = Some dups ->
  dups !! index = Some item ->
  posted_decisions
    (trace (click_process api
              (apply_cmd (setDuplicateDecisions (<[index := d]> (duplicateDecisions st))) st)))
  = [<[index := resolution_of item d]> (decisions_array dups (duplicateDecisions st))].
Proof.
  intros Hdata Hitem.
  rewrite (click_process_posts api _ dups) by exact Hdata.
  simpl. rewrite decisions_array_insert, Hitem. reflexivity.
Qed.

(** X10: What the user picks for a row is what is submitted for that row,
    and only that row's entry changes: "update" submits the first
    match's id, "skip" submits a skip without id, the selector submits
    the chosen id. *)
Theorem choice_reaches_submission api st dups index item :
  duplicateData st = Some dups ->
  dups !! index = Some item ->
  let before := decisions_array dups (duplicateDecisions st) in
  let submitted_after handler :=
    posted_decisions (trace (click_process api (final (run api handler st)))) in
  (forall first others,
     existing item = first :: others ->
     submitted_after (chooseUpdate st index item) =
       [<[index := {| res_new := new item; res_action := update;
                      res_existing_id := Some (id first) |}]> before]) /\
  submitted_after (chooseSkip st index) =
    [<[index := {| res_new := new item; res_action := skip;
                   res_existing_id := None |}]> before] /\
  (forall chosen,
     submitted_after (selectExisting st index chosen) =
       [<[index := {| res_new := new item; res_action := update;
                      res_existing_id := Some chosen |}]> before]).
Proof.
  intros Hdata Hitem before submitted_after. unfold submitted_after, before.
  split; [|split].
  - intros first others Hex. unfold chooseUpdate. rewrite Hex.
    exact (decided_state_posts api st dups index item
             {| action := update; existing_id := Some (id first) |} Hdata Hitem).
  - exact (decided_state_posts api st dups index item
             {| action := skip; existing_id := None |} Hdata Hitem).
  - intros chosen.
    exact (decided_state_posts api st dups index item
             {| action := update; existing_id := Some chosen |} Hdata Hitem).
Qed.

Lemma choice_reaches_submission_witness :
  posted_decisions
    (trace (click_process api_up
              (final (run api_up (selectExisting resolving_state 0 9) resolving_state))))
  = [[ {| res_new := new ada_row; res_action := update; res_existing_id := Some 9%Z |};
       {| res_new := new bob_row; res_action := update; res_existing_id := Some 9%Z |} ]].
Proof.
  destruct (choice_reaches_submission api_up resolving_state [ada_row; bob_row] 0 ada_row
              eq_refl eq_refl) as (_ & _ & Hselect).
  rewrite (Hselect 9%Z). reflexivity.
Defined.

(** ** The dialog rows *)

(** In every row exactly one of the two radios is drawn checked. *)
Theorem radios_exclusive (decisions : gmap nat Decision) index item :
  update_checked (render_row decisions index item) =
  negb (skip_checked (render_row decisions index item)).
Proof.
  unfold render_row; simpl.
  destruct (decisions !! index) as [[[] ?]|]; reflexivity.
Qed.

(** X12: A row the user never touched is drawn with "update" checked and
    without selector, and is nevertheless submitted as a skip. *)
Theorem untouched_row_shown_update_sent_skip api st dups index item :
  duplicateData st = Some dups ->
  dups !! index = Some item ->
  duplicateDecisions st !! index = None ->
  let row := render_row (duplicateDecisions st) index item in
  update_checked row = true /\ skip_checked row = false /\ selector row = None /\
  exists body,
    posted_decisions (trace (click_process api st)) = [body] /\
    res_action <$> body !! index = Some skip.
Proof.
  intros Hdata Hitem Hnone row. unfold row, render_row. rewrite Hnone.
  repeat split. exists (decisions_array dups (duplicateDecisions st)).
  split; [apply click_process_posts; exact Hdata|].
  unfold decisions_array. rewrite list_lookup_imap, Hitem, Hnone. reflexivity.
Qed.

Lemma untouched_row_shown_update_sent_skip_witness :
  update_checked (render_row (duplicateDecisions resolving_state) 0 ada_row) = true /\
  exists body,
    posted_decisions (trace (click_process api_up resolving_state)) = [body] /\
    res_action <$> body !! 0%nat = Some skip.
Proof.
  destruct (untouched_row_shown_update_sent_skip api_up resolving_state
              [ada_row; bob_row] 0 ada_row eq_refl eq_refl eq_refl)
    as (Hupdate & _ & _ & Hbody).
  split; [exact Hupdate | exact Hbody].
Defined.

(** ** The candidate table *)

Lemma append_empty_r (s : string) : s ++ "" = s.
Proof. induction s as [|c s IH]; [reflexivity|]. rewrite append_cons, IH. reflexivity. Qed.

Lemma split_on_cons sep s : exists piece pieces, split_on sep s = piece :: pieces.
Proof.
  destruct s as [|c rest]; simpl; [eauto|].
  destruct (Ascii.eqb c sep); [eauto|].
  destruct (split_on sep rest); eauto.
Qed.

Lemma concat_cons_cons sep (x y : string) ys :
  String.concat sep (x :: y :: ys) = x ++ sep ++ String.concat sep (y :: ys).
Proof. reflexivity. Qed.

(** Joining the pieces with the separator gives the string back. *)
Lemma split_on_join sep s :
  String.concat (String sep "") (split_on sep s) = s.
Proof.
  induction s as [|c rest IH]; [reflexivity|]. simpl.
  destruct (split_on_cons sep rest) as (piece & pieces & Hsplit).
  rewrite Hsplit in *.
  destruct (Ascii.eqb_spec c sep) as [->|Hc].
  - rewrite concat_cons_cons, append_empty_l, append_cons, append_empty_l, IH.
    reflexivity.
  - destruct pieces as [|next pieces].
    + simpl in *. congruence.
    + rewrite concat_cons_cons in *. rewrite append_cons, IH. reflexivity.
Qed.

Lemma split_on_length sep s :
  length (split_on sep s) = S (occurrences sep s).
Proof.
  induction s as [|c rest IH]; [reflexivity|]. simpl.
  destruct (split_on_cons sep rest) as (piece & pieces & Hsplit).
  rewrite Hsplit in *.
  destruct (Ascii.eqb c sep); simpl in *; lia.
Qed.

Lemma split_on_pieces sep s :
  Forall (fun piece => occurrences sep piece = 0%nat) (split_on sep s).
Proof.
  induction s as [|c rest IH]; [repeat constructor|]. simpl.
  destruct (split_on_cons sep rest) as (piece & pieces & Hsplit).
  rewrite Hsplit in *. inversion IH as [|? ? Hpiece Hpieces]; subst.
  destruct (Ascii.eqb c sep) eqn:Hc.
  - constructor; [reflexivity | constructor; assumption].
  - constructor; [|assumption]. simpl. rewrite Hc, Hpiece. reflexivity.
Qed.

(** X14: A candidate with a non-empty [tags] string gets one trimmed badge
    per piece between semicolons: the pieces contain no semicolon, join
    back to the string, and are one more than there are semicolons (so a
    trailing semicolon yields a last, empty badge).  A candidate whose
    [tags] is missing or empty gets the "No tags" text. *)
Theorem tag_badges candidate :
  match tags candidate with
  | Some (String c rest) =>
      exists pieces,
        cell_tags (render_candidate candidate) = Badges (map trim pieces) /\
        String.concat ";" pieces = String c rest /\
        Forall (fun piece => occurrences ";" piece = 0%nat) pieces /\
        length pieces = S (occurrences ";" (String c rest))
  | _ => cell_tags (render_candidate candidate) = Placeholder "No tags"
  end.
Proof.
  unfold render_candidate. cbn [cell_tags].
  destruct (tags candidate) as [[|c rest]|]; [reflexivity| |reflexivity].
  exists (split_on ";" (String c rest)). split; [reflexivity|]. split; [|split].
  - apply split_on_join.
  - apply split_on_pieces.
  - apply split_on_length.
Qed.

Ltac decide_bytes :=
  unfold visible, ws1, ws2, ws3, byte_in, byte_is in *;
  repeat match goal with
         | H : context [(?x <=? ?y)%N] |- _ => destruct (N.leb_spec x y); simpl in H
         | H : context [(?x =? ?y)%N] |- _ => destruct (N.eqb_spec x y); simpl in H
         | |- context [(?x <=? ?y)%N] => destruct (N.leb_spec x y); simpl
         | |- context [(?x =? ?y)%N] => destruct (N.eqb_spec x y); simpl
         end;
  try reflexivity; try discriminate; try lia.

Lemma visible_not_ws1 a : visible a = true -> ws1 a = false.
Proof. intros H. decide_bytes. Qed.

Lemma visible_not_ws2 a b : visible a = true -> ws2 a b = false /\ ws2 b a = false.
Proof. intros H. split; decide_bytes. Qed.

Lemma visible_not_ws3 a b c :
  visible a = true -> ws3 a b c = false /\ ws3 c b a = false.
Proof. intros H. split; decide_bytes. Qed.

Lemma reverse_onto_twice s a b :
  reverse_onto (reverse_onto s a) b = reverse_onto a (s ++ b).
Proof.
  revert a. induction s as [|c s IH]; intros a; [reflexivity|].
  simpl. rewrite IH. reflexivity.
Qed.

Lemma reverse_involutive s : reverse (reverse s) = s.
Proof.
  unfold reverse. rewrite reverse_onto_twice. simpl. apply append_empty_r.
Qed.

Lemma trimStart_visible a rest : visible a = true -> trimStart (String a rest) = String a rest.
Proof.
  intros Ha. simpl. rewrite (visible_not_ws1 a Ha).
  destruct rest as [|b rest]; [reflexivity|].
  rewrite (proj1 (visible_not_ws2 a b Ha)).
  destruct rest as [|c rest]; [reflexivity|].
  rewrite (proj1 (visible_not_ws3 a b c Ha)). reflexivity.
Qed.

Lemma trimStart_reversed_visible a rest :
  visible a = true -> trimStart_reversed (String a rest) = String a rest.
Proof.
  intros Ha. simpl. rewrite (visible_not_ws1 a Ha).
  destruct rest as [|b rest]; [reflexivity|].
  rewrite (proj2 (visible_not_ws2 a b Ha)).
  destruct rest as [|c rest]; [reflexivity|].
  rewrite (proj2 (visible_not_ws3 a b c Ha)). reflexivity.
Qed.

(** A label that begins and ends with a visible character is its own
    trim, with or without a blank written before it. *)
Lemma trim_visible_ends t :
  visible_ends t = true -> trim t = t /\ trim (" " ++ t) = t.
Proof.
  unfold visible_ends. intros [Hfirst Hlast]%andb_true_iff.
  destruct t as [|a rest]; [discriminate|].
  assert (Hend : trimEnd (String a rest) = String a rest).
  { unfold trimEnd. destruct (reverse (String a rest)) as [|b rev_rest] eqn:Hrev;
      [discriminate|].
    rewrite (trimStart_reversed_visible b rev_rest Hlast), <- Hrev.
    apply reverse_involutive. }
  unfold trim. split.
  - rewrite (trimStart_visible a rest Hfirst). exact Hend.
  - change (trimStart (" " ++ String a rest)) with (trimStart (String a rest)).
    rewrite (trimStart_visible a rest Hfirst). exact Hend.
Qed.

Lemma occurrences_app sep (s t : string) :
  occurrences sep (s ++ t) = (occurrences sep s + occurrences sep t)%nat.
Proof.
  induction s as [|c s IH]; [reflexivity|].
  rewrite append_cons. simpl. rewrite IH. lia.
Qed.

Lemma split_on_before_sep sep (t rest : string) :
  occurrences sep t = 0%nat ->
  split_on sep (t ++ String sep rest) = t :: split_on sep rest.
Proof.
  induction t as [|c t IH]; intros Hnone.
  - rewrite append_empty_l. simpl. rewrite Ascii.eqb_refl. reflexivity.
  - rewrite append_cons. simpl in *.
    destruct (Ascii.eqb c sep); [discriminate|].
    rewrite IH by exact Hnone. reflexivity.
Qed.

Lemma split_on_without_sep sep (t : string) :
  occurrences sep t = 0%nat -> split_on sep t = [t].
Proof.
  induction t as [|c t IH]; intros Hnone; [reflexivity|]. simpl in *.
  destruct (Ascii.eqb c sep); [discriminate|].
  rewrite IH by exact Hnone. reflexivity.
Qed.

Lemma append_assoc (a b c : string) : (a ++ b) ++ c = a ++ (b ++ c).
Proof. induction a as [|x a IH]; [reflexivity|]. rewrite !append_cons, IH. reflexivity. Qed.

Lemma sep_blank (s : string) : "; " ++ s = String ";" (" " ++ s).
Proof. reflexivity. Qed.

Lemma split_on_joined_labels (pre t : string) ts :
  occurrences ";" pre = 0%nat ->
  Forall tag_label (t :: ts) ->
  split_on ";" (pre ++ String.concat "; " (t :: ts)) =
  (pre ++ t) :: map (String.append " ") ts.
Proof.
  revert pre t. induction ts as [|t' ts IH]; intros pre t Hpre Hall.
  - simpl. apply split_on_without_sep. rewrite occurrences_app, Hpre.
    inversion Hall as [|? ? [Ht _] _]; subst. exact Ht.
  - inversion Hall as [|? ? [Ht _] Hrest]; subst.
    rewrite concat_cons_cons, <- append_assoc, sep_blank.
    rewrite split_on_before_sep by (rewrite occurrences_app, Hpre, Ht; reflexivity).
    rewrite (IH " " t' eq_refl Hrest). reflexivity.
Qed.

(** X15: Tags written the way the page's help text shows, labels separated
    by a semicolon and a blank, come out as exactly those labels, one
    badge each and in order. *)
Theorem tags_round_trip candidate t ts :
  Forall tag_label (t :: ts) ->
  tags candidate = Some (String.concat "; " (t :: ts)) ->
  cell_tags (render_candidate candidate) = Badges (t :: ts).
Proof.
  intros Hall Htags. unfold render_candidate. cbn [cell_tags]. rewrite Htags.
  assert (Hsplit := split_on_joined_labels "" t ts eq_refl Hall).
  rewrite append_empty_l in Hsplit. rewrite Hsplit.
  assert (Htruthy : truthy (String.concat "; " (t :: ts)) = true).
  { inversion Hall as [|? ? [_ Hvis] _]; subst.
    destruct t as [|a rest]; [discriminate|].
    destruct ts; reflexivity. }
  rewrite Htruthy. f_equal. simpl. f_equal.
  - inversion Hall as [|? ? [_ Hvis] _]; subst.
    apply (trim_visible_ends t Hvis).
  - inversion Hall as [|? ? _ Hrest]; subst. clear -Hrest.
    induction Hrest as [|t' ts [_ Hvis] _ IH]; [reflexivity|].
    simpl. rewrite IH. f_equal. apply (trim_visible_ends t' Hvis).
Qed.

Lemma tags_round_trip_witness :
  cell_tags (render_candidate
               {| id := 3; name := "Eve"; email := "eve@example.org";
                  tags := Some "frontend developer; javascript";
                  testsAssigned := []; completed := false |})
  = Badges ["frontend developer"; "javascript"].
Proof.
  apply (tags_round_trip _ "frontend developer" ["javascript"]).
  - repeat constructor.
  - reflexivity.
Defined.

Lemma trimStart_head_bounded n : forall s, (String.length s <= n)%nat -> ws_head (trimStart s) = false.
Proof.
  induction n as [|n IH]; intros s Hlen.
  - destruct s; [reflexivity | simpl in Hlen; lia].
  - destruct s as [|c1 r1]; [reflexivity|]. cbn [trimStart].
    destruct (ws1 c1) eqn:H1; [apply IH; simpl in Hlen; lia|].
    destruct r1 as [|c2 r2]; [simpl; rewrite H1; reflexivity|].
    destruct (ws2 c1 c2) eqn:H2; [apply IH; simpl in Hlen; lia|].
    destruct r2 as [|c3 r3]; [simpl; rewrite H1, H2; reflexivity|].
    destruct (ws3 c1 c2 c3) eqn:H3; [apply IH; simpl in Hlen; lia|].
    simpl. rewrite H1, H2, H3. reflexivity.
Qed.

Lemma trimStart_reversed_head_bounded n :
  forall s, (String.length s <= n)%nat -> ws_tail (reverse (trimStart_reversed s)) = false.
Proof.
  unfold ws_tail. induction n as [|n IH]; intros s Hlen.
  - destruct s; [reflexivity | simpl in Hlen; lia].
  - destruct s as [|c1 r1]; [reflexivity|]. cbn [trimStart_reversed].
    destruct (ws1 c1) eqn:H1; [apply IH; simpl in Hlen; lia|].
    destruct r1 as [|c2 r2]; [rewrite reverse_involutive, H1; reflexivity|].
    destruct (ws2 c2 c1) eqn:H2; [apply IH; simpl in Hlen; lia|].
    destruct r2 as [|c3 r3]; [rewrite reverse_involutive, H1, H2; reflexivity|].
    destruct (ws3 c3 c2 c1) eqn:H3; [apply IH; simpl in Hlen; lia|].
    rewrite reverse_involutive, H1, H2, H3. reflexivity.
Qed.

Lemma trimStart_reversed_suffix_bounded n :
  forall s, (String.length s <= n)%nat -> exists pre, s = pre ++ trimStart_reversed s.
Proof.
  induction n as [|n IH]; intros s Hlen.
  - destruct s; [exists ""; reflexivity | simpl in Hlen; lia].
  - destruct s as [|c1 r1]; [exists ""; reflexivity|]. cbn [trimStart_reversed].
    destruct (ws1 c1).
    { destruct (IH r1) as [pre Hpre]; [simpl in Hlen; lia|].
      exists (String c1 pre). rewrite append_cons, <- Hpre. reflexivity. }
    destruct r1 as [|c2 r2]; [exists ""; reflexivity|].
    destruct (ws2 c2 c1).
    { destruct (IH r2) as [pre Hpre]; [simpl in Hlen; lia|].
      exists (String c1 (String c2 pre)). rewrite !append_cons, <- Hpre. reflexivity. }
    destruct r2 as [|c3 r3]; [exists ""; reflexivity|].
    destruct (ws3 c3 c2 c1); [|exists ""; reflexivity].
    destruct (IH r3) as [pre Hpre]; [simpl in Hlen; lia|].
    exists (String c1 (String c2 (String c3 pre))). rewrite !append_cons, <- Hpre.
    reflexivity.
Qed.

Lemma reverse_onto_append s acc : reverse_onto s acc = reverse s ++ acc.
Proof.
  unfold reverse. revert acc. induction s as [|c s IH]; intros acc; [reflexivity|].
  simpl. rewrite IH, (IH (String c "")), append_assoc. reflexivity.
Qed.

Lemma reverse_append (s t : string) : reverse (s ++ t) = reverse t ++ reverse s.
Proof.
  induction s as [|c s IH].
  - rewrite append_empty_l, append_empty_r. reflexivity.
  - rewrite append_cons. unfold reverse in *. simpl.
    rewrite reverse_onto_append, (reverse_onto_append s). fold (reverse (s ++ t)).
    fold (reverse s). unfold reverse in IH |- *. rewrite IH, append_assoc. reflexivity.
Qed.

(** [trimEnd] only removes from the end. *)
Lemma trimEnd_prefix s : exists post, s = trimEnd s ++ post.
Proof.
  unfold trimEnd.
  destruct (trimStart_reversed_suffix_bounded _ (reverse s) (Nat.le_refl _)) as [pre Hpre].
  exists (reverse pre).
  rewrite <- reverse_append, <- Hpre. symmetry. apply reverse_involutive.
Qed.

Lemma ws_head_prefix (p q : string) : ws_head (p ++ q) = false -> ws_head p = false.
Proof.
  destruct p as [|c1 [|c2 [|c3 p]]]; rewrite ?append_cons, ?append_empty_l; simpl.
  - reflexivity.
  - intros [H1 _]%orb_false_iff. rewrite H1. reflexivity.
  - intros [H1 H]%orb_false_iff. apply orb_false_iff in H as [H2 _].
    rewrite H1, H2. reflexivity.
  - intros H. exact H.
Qed.

Lemma trim_has_clean_ends s : ws_head (trim s) = false /\ ws_tail (trim s) = false.
Proof.
  unfold trim. split.
  - destruct (trimEnd_prefix (trimStart s)) as [post Hpost].
    apply (ws_head_prefix _ post). rewrite <- Hpost.
    apply (trimStart_head_bounded _ s (Nat.le_refl _)).
  - unfold trimEnd. apply (trimStart_reversed_head_bounded _ _ (Nat.le_refl _)).
Qed.

(** ** The event loop *)

Lemma has_duplicates_nonempty result dups : has_duplicates result = Some dups -> dups <> [].
Proof.
  unfold has_duplicates. destruct (r_duplicates result) as [[|d ds]|]; try discriminate.
  intros [= <-]. discriminate.
Qed.

Lemma aside_refl st : aside st st.
Proof. repeat split; auto. Qed.

(** A stretch that leaves the dialog cells and the busy flag alone. *)
Lemma aside_frame st st' :
  duplicateData st' = duplicateData st ->
  duplicateDecisions st' = duplicateDecisions st ->
  isUploading st' = isUploading st ->
  aside st st'.
Proof.
  intros Hdata Hdec Hup. unfold aside, dialog_well_formed.
  rewrite Hdata, Hdec, Hup. repeat split; auto.
Qed.

(** A stretch that clears the dialog cells. *)
Lemma aside_cleared st st' :
  duplicateData st' = None ->
  duplicateDecisions st' = ∅ ->
  isUploading st' = isUploading st ->
  aside st st'.
Proof.
  intros Hdata Hdec Hup. unfold aside, dialog_well_formed.
  rewrite Hdata, Hdec, Hup. repeat split; auto.
Qed.

Ltac reply_cases :=
  match goal with
  | H : resume _ ?r = Some _ |- _ =>
      destruct r as [o|o]; simpl in H; try discriminate;
      injection H as <-; destruct o as [resp|err]; simpl
  end.

Lemma upload_keeps_frame st st' :
  duplicateData st' = duplicateData st ->
  duplicateDecisions st' = duplicateDecisions st ->
  isUploading st' = isUploading st ->
  upload_keeps st st'.
Proof.
  intros Hdata Hdec Hup. unfold upload_keeps, busy, dialog_well_formed.
  rewrite Hdata, Hdec, Hup. auto.
Qed.

Lemma upload_ends_frame st st' :
  duplicateData st' = duplicateData st ->
  duplicateDecisions st' = duplicateDecisions st ->
  isUploading st' = false ->
  upload_ends st st'.
Proof.
  intros Hdata Hdec Hup. unfold upload_ends, busy, dialog_well_formed.
  rewrite Hdata, Hdec, Hup. tauto.
Qed.

Lemma upload_ends_duplicates st st' dups :
  duplicateData st' = Some dups -> dups <> [] ->
  duplicateDecisions st' = duplicateDecisions st ->
  isUploading st' = false ->
  upload_ends st st'.
Proof.
  intros Hdata Hne Hdec Hup. unfold upload_ends, busy, dialog_well_formed.
  rewrite Hdata, Hdec, Hup. intros HG [_ Hnone]. rewrite Hnone in HG.
  rewrite HG. repeat split; [exact Hne|].
  intros i d Hd. rewrite lookup_empty in Hd. discriminate.
Qed.

Ltac stretch_ends :=
  apply follows_done;
  [reflexivity
  |intros ?st;
   first [apply aside_frame; reflexivity
         |apply aside_cleared; reflexivity
         |apply upload_ends_frame; reflexivity]].

(** The load is a bystander. *)
Lemma load_waits_aside :
  exists q, suspended fetchCandidates = Some q /\ bystander_waiting q.
Proof.
  unfold_api. simpl. eexists. split; [reflexivity|]. split; [exact I|].
  intros r q' Hres. reply_cases; [|stretch_ends].
  destruct (json resp) as [data|e]; simpl; stretch_ends.
Qed.

(** A started resolution is a bystander, suspended at once on its POST. *)
Lemma resolution_waits_aside st data :
  duplicateData st = Some data ->
  settle (handleDuplicateResolution st) st = st /\
  exists q, suspended (handleDuplicateResolution st) = Some q /\
            awaited q = Some (POST "/candidates/resolve-duplicates"
                                   (decisions_array data (duplicateDecisions st))) /\
            bystander_waiting q.
Proof.
  intros Hdata. unfold_api. rewrite Hdata. simpl.
  split; [reflexivity|]. eexists. split; [reflexivity|].
  split; [reflexivity|]. split; [exact I|].
  intros r q' Hres. reply_cases; [|stretch_ends].
  destruct (json resp) as [result|e]; simpl; [|stretch_ends].
  destruct (ok resp); simpl; [|stretch_ends].
  destruct (r_success result); simpl; [|stretch_ends].
  destruct (r_errors result); simpl; [|stretch_ends].
  eapply follows_wait;
    [reflexivity | intros st0; apply aside_cleared; reflexivity | exact I |].
  clear. intros r q' Hres. reply_cases; [|stretch_ends].
  destruct (json resp) as [data'|e]; simpl; stretch_ends.
Qed.

(** A started upload of an accepted file raises the busy flag, resets
    the dialog cells and owns the flag until it ends. *)
Lemma upload_waits_owning event file st :
  head (files event) = Some file ->
  accepted_extension (file_name file) = true ->
  settle (handleFileUpload event) st = uploading st /\
  exists q, suspended (handleFileUpload event) = Some q /\ owner_waiting q.
Proof.
  intros Hfile Hext. upload_start Hfile Hext.
  split; [reflexivity|]. eexists. split; [reflexivity|].
  intros r q' Hres. reply_cases; [|stretch_ends].
  destruct (not_json (content_type resp)); simpl; [stretch_ends|].
  destruct (json resp) as [result|e]; simpl; [|stretch_ends].
  destruct (ok resp); simpl; [|stretch_ends].
  destruct (has_duplicates result) as [dups|] eqn:Hdups; simpl.
  - apply follows_done; [reflexivity|]. intros st0.
    apply (upload_ends_duplicates _ _ dups); try reflexivity.
    apply (has_duplicates_nonempty result). exact Hdups.
  - destruct (r_success result); simpl; [|stretch_ends].
    destruct (r_errors result); simpl; [|stretch_ends].
    eapply follows_wait;
      [reflexivity | intros st0; apply upload_keeps_frame; reflexivity | exact I |].
    clear. intros r q' Hres. reply_cases; [|stretch_ends].
    destruct (json resp) as [data'|e]; simpl; stretch_ends.
Qed.

Lemma selector_lists_matches (decisions : gmap nat Decision) index item shown options :
  selector (render_row decisions index item) = Some (shown, options) ->
  options = existing item.
Proof.
  unfold render_row; simpl.
  destruct (is_action update (decisions !! index) && (1 <? length (existing item))%nat);
    [|discriminate].
  intros [= _ <-]. reflexivity.
Qed.

Lemma render_main st page : render st = MainScreen page -> page = render_page st.
Proof.
  unfold render. destruct (loading st); [discriminate|].
  destruct (error st) as [msg|]; [destruct (truthy msg); [discriminate|]|];
    intros [= <-]; reflexivity.
Qed.

Lemma dialog_row_inv st index row :
  dialog_row (render_page st) index = Some row ->
  exists data item,
    duplicateData st = Some data /\ data !! index = Some item /\
    row = render_row (duplicateDecisions st) index item.
Proof.
  unfold dialog_row, render_page, render_modal; simpl.
  destruct (showDuplicateModal st); [|discriminate].
  destruct (duplicateData st) as [data|]; [|discriminate]. simpl.
  rewrite list_lookup_imap. destruct (data !! index) as [item|] eqn:Hitem; [|discriminate].
  intros [= <-]. exists data, item. repeat split. exact Hitem.
Qed.

Lemma modal_has_data st :
  modal (render_page st) <> None -> exists data, duplicateData st = Some data.
Proof.
  unfold render_page, render_modal; simpl.
  destruct (showDuplicateModal st); [|congruence].
  destruct (duplicateData st) as [data|]; [eauto | congruence].
Qed.

(** While an upload is in progress the screen offers nothing that
    changes the state. *)
Lemma busy_no_events st e : busy st -> on_event st e = None.
Proof.
  intros [Hup Hnone]. unfold on_event.
  destruct (render st) as [| |page] eqn:Hrender; try reflexivity.
  apply render_main in Hrender as ->.
  assert (Hmodal : modal (render_page st) = None).
  { unfold render_page, render_modal; simpl. rewrite Hnone.
    destruct (showDuplicateModal st); reflexivity. }
  destruct e; unfold dialog_row; rewrite ?Hmodal; try reflexivity.
  simpl. rewrite Hup. reflexivity.
Qed.

Lemma well_formed_insert st data index item d :
  duplicateData st = Some data ->
  data !! index = Some item ->
  decision_fits item d ->
  dialog_well_formed st ->
  dialog_well_formed
    (apply_cmd (setDuplicateDecisions (<[index := d]> (duplicateDecisions st))) st).
Proof.
  unfold dialog_well_formed. simpl. intros Hdata Hitem Hfits. rewrite Hdata.
  intros [Hne Hall]. split; [exact Hne|]. intros i d'.
  rewrite lookup_insert. case_decide as Hi.
  - intros [= <-]. subst i. eauto.
  - apply Hall.
Qed.

Lemma well_formed_cleared st :
  duplicateData st = None -> duplicateDecisions st = ∅ -> dialog_well_formed st.
Proof. unfold dialog_well_formed. intros -> ->. reflexivity. Qed.

(** What a UI event does when no upload is in progress. *)
Lemma idle_event st e p :
  isUploading st = false ->
  dialog_well_formed st ->
  on_event st e = Some p ->
  dialog_well_formed (settle p st) /\
  ((suspended p = None /\ isUploading (settle p st) = false) \/
   (exists q, suspended p = Some q /\ bystander_waiting q /\
              isUploading (settle p st) = false) \/
   (exists q, suspended p = Some q /\ owner_waiting q /\ busy (settle p st))).
Proof.
  intros Hidle HG. unfold on_event.
  destruct (render st) as [| |page] eqn:Hrender; try discriminate.
  apply render_main in Hrender as ->.
  destruct e as [event| | | |index|index|index chosen].
  - destruct (input_disabled _); [discriminate|]. intros [= <-].
    destruct (head (files event)) as [file|] eqn:Hfile.
    + destruct (accepted_extension (file_name file)) eqn:Hext.
      * destruct (upload_waits_owning event file st Hfile Hext) as (Hsettle & q & Hq & Hown).
        rewrite Hsettle. split; [apply well_formed_cleared; reflexivity|].
        right. right. exists q.
        split; [exact Hq | split; [exact Hown | split; reflexivity]].
      * unfold handleFileUpload. rewrite Hfile, regex_test_upload_name, Hext. simpl.
        split; [apply well_formed_cleared; reflexivity|]. left. split; reflexivity.
    + unfold handleFileUpload. rewrite Hfile. simpl. split; [exact HG|].
      left. split; [reflexivity | exact Hidle].
  - destruct (modal _); [|discriminate]. intros [= <-]. simpl.
    split; [apply well_formed_cleared; reflexivity|]. left. split; [reflexivity | exact Hidle].
  - destruct (modal _); [|discriminate]. intros [= <-]. simpl.
    split; [apply well_formed_cleared; reflexivity|]. left. split; [reflexivity | exact Hidle].
  - destruct (modal (render_page st)) eqn:Hmodal; [|discriminate]. intros [= <-].
    destruct (modal_has_data st) as [data Hdata]; [congruence|].
    destruct (resolution_waits_aside st data Hdata) as (Hsettle & q & Hq & _ & Hby).
    rewrite Hsettle. split; [exact HG|]. right. left. exists q.
    split; [exact Hq | split; [exact Hby | exact Hidle]].
  - destruct (dialog_row _ index) as [row|] eqn:Hrow; [|discriminate]. intros [= <-].
    apply dialog_row_inv in Hrow as (data & item & Hdata & Hitem & ->).
    unfold chooseUpdate, render_row; simpl.
    destruct (existing item) as [|first others] eqn:Hex; simpl.
    + split; [exact HG|]. left. split; [reflexivity | exact Hidle].
    + split; [|left; split; [reflexivity | exact Hidle]].
      apply (well_formed_insert st data index item); try assumption.
      right. exists first, (id first).
      split; [rewrite Hex; left | split; [left; reflexivity | reflexivity]].
  - destruct (dialog_row _ index) as [row|] eqn:Hrow; [|discriminate]. intros [= <-].
    apply dialog_row_inv in Hrow as (data & item & Hdata & Hitem & ->).
    unfold chooseSkip; simpl.
    split; [|left; split; [reflexivity | exact Hidle]].
    apply (well_formed_insert st data index item); try assumption.
    left. reflexivity.
  - destruct (dialog_row _ index) as [row|] eqn:Hrow; [|discriminate].
    apply dialog_row_inv in Hrow as (data & item & Hdata & Hitem & ->).
    pose proof (selector_lists_matches (duplicateDecisions st) index item) as Hsel.
    destruct (selector _) as [[shown options]|]; [|discriminate].
    rewrite (Hsel shown options eq_refl).
    destruct (existsb _ _) eqn:Hin; [|discriminate]. intros [= <-].
    apply existsb_exists in Hin as (m & Hm & Hread).
    apply list_elem_of_In in Hm.
    unfold selectExisting; simpl.
    split; [|left; split; [reflexivity | exact Hidle]].
    apply (well_formed_insert st data index item); try assumption.
    right. exists m, chosen.
    split; [exact Hm | split; [right; exact Hread | reflexivity]].
Qed.

Lemma bystander_start st q' :
  bystander q' ->
  aside st (settle q' st) /\ Forall bystander_waiting (option_list (suspended q')).
Proof.
  intros Hby. inversion Hby as [p Hdone Hrel | p q Hwait Hrel HW Hnext]; subst.
  - rewrite Hdone. split; [apply Hrel | constructor].
  - rewrite Hwait. split; [apply Hrel|].
    constructor; [split; [exact HW | exact Hnext] | constructor].
Qed.

Lemma owner_start st q' :
  owner q' -> dialog_well_formed st -> busy st ->
  dialog_well_formed (settle q' st) /\
  ((suspended q' = None /\ isUploading (settle q' st) = false) \/
   (exists q, suspended q' = Some q /\ owner_waiting q /\ busy (settle q' st))).
Proof.
  intros Hown HG Hbusy.
  inversion Hown as [p Hdone Hrel | p q Hwait Hrel HW Hnext]; subst.
  - destruct (Hrel st HG Hbusy) as [HG' Hidle]. split; [exact HG'|]. left. auto.
  - destruct (Hrel st HG Hbusy) as [HG' Hbusy']. split; [exact HG'|].
    right. exists q. auto.
Qed.

Lemma mounted_invariant : loop_invariant mounted.
Proof.
  destruct load_waits_aside as (q & Hq & Hby).
  unfold loop_invariant, mounted, start. cbn [view pending]. rewrite Hq. split.
  - apply well_formed_cleared; reflexivity.
  - exists [], [q]. split; [reflexivity|].
    split; [constructor; [exact Hby | constructor]|].
    left. split; reflexivity.
Qed.

Lemma pending_without (P : list (Async unit)) i q rest :
  P !! i = Some q -> P ≡ₚ q :: rest -> delete i P ≡ₚ rest.
Proof.
  intros Hi HP. apply delete_Permutation in Hi.
  apply (Permutation_cons_inv (a := q)). rewrite <- Hi. exact HP.
Qed.

(** Every turn of the event loop keeps the invariant. *)
Lemma step_invariant c s c' :
  loop_invariant c -> step c s = Some c' -> loop_invariant c'.
Proof.
  intros (HG & owners & others & Hperm & Hothers & Hmode). destruct s as [e| |i r]; simpl.
  - destruct (on_event (view c) e) as [p|] eqn:Hev; [|discriminate]. intros [= <-].
    destruct Hmode as [[Hidle ->] | [Hbusy _]];
      [|rewrite (busy_no_events _ e Hbusy) in Hev; discriminate].
    destruct (idle_event _ e p Hidle HG Hev)
      as (HG' & [[Hdone Hidle'] | [(q & Hq & Hby & Hidle') | (q & Hq & Hown & Hbusy')]]);
      unfold loop_invariant, start; simpl; (split; [exact HG'|]).
    + rewrite Hdone. exists [], others. simpl. rewrite app_nil_r.
      split; [exact Hperm|]. split; [exact Hothers|]. left. auto.
    + rewrite Hq. exists [], (others ++ [q])%list. simpl.
      split; [rewrite Hperm; reflexivity|].
      split; [apply Forall_app; split;
                [exact Hothers | constructor; [exact Hby | constructor]]|].
      left. auto.
    + rewrite Hq. exists [q], others. simpl.
      split; [rewrite Hperm; simpl; symmetry; apply Permutation_cons_append|].
      split; [exact Hothers|]. right. split; [exact Hbusy'|]. exists q. auto.
  - destruct (render (view c)); try discriminate. intros [= <-]. apply mounted_invariant.
  - destruct (pending c !! i) as [q0|] eqn:Hi; [|discriminate].
    destruct (resume q0 r) as [q'|] eqn:Hres; [|discriminate]. intros [= <-].
    assert (Hin : q0 ∈ (owners ++ others)%list).
    { rewrite <- Hperm. apply list_elem_of_lookup. eauto. }
    unfold loop_invariant, start; simpl.
    apply elem_of_app in Hin as [Hin | Hin].
    + destruct Hmode as [[_ ->] | [Hbusy (o & -> & Hown)]];
        [apply elem_of_nil in Hin; contradiction|].
      apply list_elem_of_singleton in Hin as ->.
      assert (Hrest : delete i (pending c) ≡ₚ others)
        by (apply (pending_without _ i o); [exact Hi | exact Hperm]).
      destruct (owner_start (view c) q' (Hown r q' Hres) HG Hbusy)
        as (HG' & [[Hdone Hidle'] | (q & Hq & Hown' & Hbusy')]);
        (split; [exact HG'|]).
      * rewrite Hdone. exists [], others. simpl. rewrite app_nil_r.
        split; [exact Hrest|]. split; [exact Hothers|]. left. auto.
      * rewrite Hq. exists [q], others. simpl.
        split; [rewrite Hrest; symmetry; apply Permutation_cons_append|].
        split; [exact Hothers|]. right. split; [exact Hbusy'|]. exists q. auto.
    + apply elem_of_Permutation in Hin as [others' Hothers'].
      assert (Hby : Forall bystander_waiting (q0 :: others'))
        by (rewrite <- Hothers'; exact Hothers).
      inversion Hby as [|? ? [_ Hnext] Hrest_by]; subst.
      assert (Hrest : delete i (pending c) ≡ₚ (owners ++ others')%list).
      { apply (pending_without _ i q0); [exact Hi|].
        rewrite Hperm, Hothers'. symmetry. apply Permutation_middle. }
      destruct (bystander_start (view c) q' (Hnext r q' Hres))
        as ((HG' & Hflag & Hnone) & Hnew).
      split; [apply HG'; exact HG|].
      exists owners, (others' ++ option_list (suspended q'))%list.
      split; [rewrite Hrest, app_assoc; reflexivity|].
      split; [apply Forall_app; split; assumption|].
      destruct Hmode as [[Hidle ->] | [[Hup Hdata] Ho]].
      * left. split; [congruence | reflexivity].
      * right. split; [split; [congruence | auto] | exact Ho].
Qed.

Lemma steps_invariant l : forall c c',
  loop_invariant c -> steps c l = Some c' -> loop_invariant c'.
Proof.
  induction l as [|s l IH]; intros c c' Hinv; simpl.
  - intros [= <-]. exact Hinv.
  - destruct (step c s) as [c1|] eqn:Hstep; [|discriminate].
    apply IH. apply (step_invariant c s c1 Hinv Hstep).
Qed.

Lemma reachable_invariant c : reachable c -> loop_invariant c.
Proof. intros [l Hl]. apply (steps_invariant l mounted c mounted_invariant Hl). Qed.

(** X17: Whatever the user does and in whatever order replies arrive, at
    most one upload request is outstanding; and while one is, the busy
    flag is up and the screen offers no control that changes the state:
    the file input is disabled and the dialog is closed. *)
Theorem single_upload_in_flight c :
  reachable c ->
  (length (filter (fun r => is_upload r = true) (outstanding c)) <= 1)%nat /\
  (forall path form,
     UPLOAD path form ∈ outstanding c ->
     isUploading (view c) = true /\
     dialog_open (view c) = false /\
     forall e, on_event (view c) e = None).
Proof.
  intros Hreach.
  destruct (reachable_invariant c Hreach) as (HG & owners & others & Hperm & Hothers & Hmode).
  assert (Hquiet : forall r, r ∈ omap awaited others -> is_upload r = false).
  { intros r (q & Hq & Hr)%list_elem_of_omap.
    rewrite Forall_forall in Hothers. destruct (Hothers q Hq) as [Hnot _].
    unfold not_uploading in Hnot. rewrite Hr in Hnot. destruct r; tauto || reflexivity. }
  assert (Hnone : filter (fun r => is_upload r = true) (omap awaited others) = []).
  { induction (omap awaited others) as [|r l IH]; [reflexivity|].
    rewrite filter_cons. rewrite (Hquiet r) by left.
    case_decide; [discriminate|]. apply IH. intros r' Hr'. apply Hquiet. right. exact Hr'. }
  unfold outstanding. split.
  - rewrite Hperm, omap_app, filter_app, Hnone, app_nil_r.
    destruct Hmode as [[_ ->] | [_ (o & -> & _)]]; simpl; [lia|].
    destruct (awaited o) as [r|]; simpl; [|lia].
    rewrite filter_cons. case_decide; simpl; lia.
  - intros path form Hin. rewrite Hperm, omap_app in Hin.
    apply elem_of_app in Hin as [Hin | Hin];
      [|apply Hquiet in Hin; discriminate].
    destruct Hmode as [[_ ->] | [Hbusy _]]; [apply elem_of_nil in Hin; contradiction|].
    split; [apply Hbusy|]. split; [apply dialog_closed_without_data, Hbusy|].
    intros e. apply busy_no_events. exact Hbusy.
Qed.

Lemma after_reachable l : is_Some (steps mounted l) -> reachable (after l).
Proof. intros [c Hc]. exists l. unfold after. rewrite Hc. reflexivity. Qed.

Lemma roster_in_flight_outstanding :
  outstanding roster_in_flight =
  [UPLOAD "/candidates/upload" [("file", {| file_name := "roster.csv" |})]].
Proof. vm_compute. reflexivity. Qed.

Lemma single_upload_in_flight_witness :
  isUploading (view roster_in_flight) = true /\
  on_event (view roster_in_flight) (FileChange (select_file "again.csv")) = None.
Proof.
  destruct (single_upload_in_flight roster_in_flight) as [_ Hbusy].
  - apply after_reachable. vm_compute. eexists. reflexivity.
  - destruct (Hbusy "/candidates/upload" [("file", {| file_name := "roster.csv" |})])
      as (Hflag & _ & Hquiet).
    + rewrite roster_in_flight_outstanding. left.
    + split; [exact Hflag | apply Hquiet].
Defined.

Lemma Forall2_imap_lookup {A B} (R : A -> B -> Prop) (f : nat -> A -> B) (l : list A) :
  (forall i x, l !! i = Some x -> R x (f i x)) -> Forall2 R l (imap f l).
Proof.
  revert f. induction l as [|x l IH]; intros f Hall; simpl; constructor.
  - apply (Hall 0%nat x). reflexivity.
  - apply IH. intros i y Hy. apply (Hall (S i) y). exact Hy.
Qed.

(** From a well-formed dialog state every entry of the submitted array
    fits its row. *)
Lemma well_formed_submission st data :
  dialog_well_formed st -> duplicateData st = Some data ->
  Forall2 resolution_fits data (decisions_array data (duplicateDecisions st)).
Proof.
  unfold dialog_well_formed. intros HG Hdata. rewrite Hdata in HG. destruct HG as [_ Hall].
  apply Forall2_imap_lookup. intros i item Hitem. unfold resolution_fits. simpl.
  split; [reflexivity|].
  destruct (duplicateDecisions st !! i) as [d|] eqn:Hd; simpl; [|left; split; reflexivity].
  destruct (Hall i d Hd) as (item' & Hitem' & Hfits).
  assert (item' = item) as -> by congruence.
  destruct Hfits as [-> | (m & z & Hm & Hz & ->)]; simpl.
  - left. split; reflexivity.
  - right. split; [reflexivity|]. exists m, z.
    split; [exact Hm | split; [exact Hz | reflexivity]].
Qed.

(** A plain decimal reads back as the number it prints. *)
Lemma parsed_back_plain z chosen :
  printed_plain z = true -> parsed_back z chosen = true -> chosen = z.
Proof.
  unfold parsed_back. intros ->. apply Z.eqb_eq.
Qed.

(** When every match id is printed plainly, an entry that fits its row
    names one of the row's match ids. *)
Lemma plain_ids_name_matches data body :
  plain_ids data ->
  Forall2 resolution_fits data body ->
  Forall2 resolution_names_match data body.
Proof.
  intros Hplain Hfits. induction Hfits as [|item res data body Hfit _ IH].
  - constructor.
  - inversion Hplain as [|? ? Hitem Hrest]; subst.
    constructor; [|apply IH; exact Hrest].
    destruct Hfit as [Hnew [Hskip | (Hupdate & m & z & Hm & Hz & Hid)]];
      (split; [exact Hnew|]); [left; exact Hskip|].
    right. split; [exact Hupdate|]. exists m. split; [exact Hm|].
    rewrite Hid. f_equal. destruct Hz as [-> | Hread]; [reflexivity|].
    apply (parsed_back_plain (id m)); [|exact Hread].
    rewrite Forall_forall in Hitem. apply Hitem. exact Hm.
Qed.

(** X18: Whatever the user does and in whatever order replies arrive: the
    dialog is never shown without rows, and whenever "Process Selected
    Actions" can be pressed it posts one entry per row, in order, each
    carrying its row's payload and either a skip without id or an update
    whose id is the id of one of that row's own matches or what
    [parseInt] reads back from that id's printed form; when the ids of
    all matches are printed as plain decimals (magnitude below 1e21), an
    update always names the id of one of its row's own matches. *)
Theorem submissions_fit_rows c :
  reachable c ->
  (forall m, render_modal (view c) = Some m -> rows m <> []) /\
  (forall p,
     on_event (view c) ClickProcess = Some p ->
     exists q data body,
       suspended p = Some q /\
       awaited q = Some (POST "/candidates/resolve-duplicates" body) /\
       duplicateData (view c) = Some data /\
       Forall2 resolution_fits data body /\
       (plain_ids data -> Forall2 resolution_names_match data body)).
Proof.
  intros Hreach. destruct (reachable_invariant c Hreach) as (HG & _). split.
  - intros m. unfold render_modal. destruct (showDuplicateModal (view c)); [|discriminate].
    unfold dialog_well_formed in HG.
    destruct (duplicateData (view c)) as [data|]; [|discriminate].
    intros [= <-]. simpl. destruct HG as [Hne _].
    destruct data; [congruence | discriminate].
  - intros p. unfold on_event.
    destruct (render (view c)) as [| |page] eqn:Hrender; try discriminate.
    apply render_main in Hrender as ->.
    destruct (modal (render_page (view c))) eqn:Hmodal; [|discriminate]. intros [= <-].
    destruct (modal_has_data (view c)) as [data Hdata]; [congruence|].
    destruct (resolution_waits_aside (view c) data Hdata) as (_ & q & Hq & Hawait & _).
    exists q, data, (decisions_array data (duplicateDecisions (view c))).
    split; [exact Hq|]. split; [exact Hawait|]. split; [exact Hdata|].
    assert (Hfits := well_formed_submission (view c) data HG Hdata).
    split; [exact Hfits|]. intros Hplain.
    apply plain_ids_name_matches; assumption.
Qed.

Lemma submissions_fit_rows_witness :
  exists p q body,
    on_event (view dialog_shown) ClickProcess = Some p /\
    suspended p = Some q /\
    awaited q = Some (POST "/candidates/resolve-duplicates" body) /\
    Forall2 resolution_names_match [ada_row; bob_row] body.
Proof.
  assert (Hreach : reachable dialog_shown)
    by (apply after_reachable; vm_compute; eexists; reflexivity).
  assert (Hev : on_event (view dialog_shown) ClickProcess =
                Some (handleDuplicateResolution (view dialog_shown)))
    by (vm_compute; reflexivity).
  destruct (submissions_fit_rows dialog_shown Hreach) as [_ Hpost].
  destruct (Hpost _ Hev) as (q & data & body & Hq & Hawait & Hdata & _ & Hnames).
  exists (handleDuplicateResolution (view dialog_shown)), q, body.
  split; [exact Hev|]. split; [exact Hq|]. split; [exact Hawait|].
  vm_compute in Hdata. injection Hdata as <-. apply Hnames.
  repeat constructor.
Defined.

(** X19: Unlike uploads, resolutions can overlap: after the dialog opens,
    pressing "Process Selected Actions" twice leaves two POSTs of the
    same decisions outstanding. *)
Theorem resolutions_can_overlap :
  reachable (after double_press) /\
  exists body,
    filter (fun r => is_resolution r = true) (outstanding (after double_press)) =
    [POST "/candidates/resolve-duplicates" body;
     POST "/candidates/resolve-duplicates" body].
Proof.
  split; [apply after_reachable; vm_compute; eexists; reflexivity|].
  eexists. vm_compute. reflexivity.
Qed.

(** A run against an [Api] is the run of the event loop in which every
    reply arrives before anything else happens. *)
Lemma run_by_turns api (p : Async unit) st :
  match suspended p with
  | None => final (run api p st) = settle p st
  | Some q =>
      exists r q', reply_from api q = Some r /\ resume q r = Some q' /\
                   final (run api p st) = final (run api q' (settle p st))
  end.
Proof.
  revert st. induction p as [a|e|c k IH|path k _|path form k _|path body k _];
    intros st; simpl; try reflexivity.
  - specialize (IH (apply_cmd c st)). destruct (suspended k); exact IH.
  - eexists _, _. repeat split.
  - eexists _, _. repeat split.
  - eexists _, _. repeat split.
Qed.

(** ** Badge labels *)

(** X16: Every tag badge of the table is free of white space at both ends. *)
Theorem badge_labels_trimmed candidate labels :
  cell_tags (render_candidate candidate) = Badges labels ->
  Forall (fun label => ws_head label = false /\ ws_tail label = false) labels.
Proof.
  unfold render_candidate. cbn [cell_tags].
  destruct (tags candidate) as [t|]; [|discriminate].
  destruct (truthy t); [|discriminate]. intros [= <-].
  apply Forall_fmap, Forall_forall. intros piece _. apply trim_has_clean_ends.
Qed.

Lemma badge_labels_trimmed_witness :
  Forall (fun label => ws_head label = false /\ ws_tail label = false)
         ["frontend developer"; "javascript"].
Proof.
  apply (badge_labels_trimmed
           {| id := 3; name := "Eve"; email := "eve@example.org";
              tags := Some "  frontend developer ;javascript ";
              testsAssigned := []; completed := false |}).
  reflexivity.
Defined.

Lemma load_outcome_witness :
  candidates (final (run api_up fetchCandidates initial_state)) = [ada; ada_other].
Proof.
  destruct (load_outcome api_up initial_state) as (_ & _ & _ & _ & _ & _ & _ & _ & Hshown).
  destruct (Hshown (Some "application/json; charset=utf-8") [ada; ada_other] eq_refl)
    as [Hlist _].
  exact Hlist.
Defined.

(** The selector on ids at the edge of the plain notation: 1e21 is
    printed [1e+21] and read back as 1, never as itself; anything smaller
    reads back as itself only. *)
Lemma parsed_back_edge :
  parsed_back (10 ^ 21) 1 = true /\
  parsed_back (10 ^ 21) (10 ^ 21) = false /\
  parsed_back (10 ^ 21 - 1) (10 ^ 21 - 1) = true /\
  parsed_back (-7) (-7) = true /\
  parsed_back (-7) 7 = false.
Proof. repeat split. Qed.
